(** * ghostmail-cli: reply formatting, previews, recipients and mail plumbing

    A shallow embedding of the locally written logic of ghostmail-cli
    (the reply, send, read and inbox commands of internal/cli, the reader
    and sender of internal/email and the settings of internal/config)
    together with the properties its specification states about it.

    Conventions.
    - A Go [string] is a sequence of bytes; it is modelled as [string]
      (a list of [ascii], one per byte).  [len] is the byte length.
    - A Go [int] is modelled as [Z].  The only arithmetic on it adds
      lengths of strings held in memory, which stay far below 2^63, so no
      wrap-around is written out.
    - Library calls (IMAP client, MIME reader, SMTP dialer, file system)
      are not part of the repository; their results are inputs of the
      model and the calls made are recorded in a trace.
    - A call returns, panics, or does not end ([outcome]). *)

From Stdlib Require Import ZArith Ascii String List Bool Lia.
From stdpp Require Import base tactics option list strings gmap.

Local Open Scope string_scope.
Local Open Scope list_scope.
Local Open Scope Z_scope.

(** ** Go's [strings] package, as far as the program uses it *)

Module strings.

(** The byte ["\n"]. *)
Definition nl : ascii := "010"%char.
Definition NL : string := String nl EmptyString.

Definition len (s : string) : Z := Z.of_nat (String.length s).

(** [s == ""] *)
Definition isEmpty (s : string) : bool :=
  match s with EmptyString => true | String _ _ => false end.

(** [strings.Split(s, sep)] for a one-byte separator: the pieces between
    the separators; the empty string gives one empty piece. *)
Fixpoint Split (sep : ascii) (s : string) : list string :=
  match s with
  | EmptyString => [EmptyString]
  | String c s' =>
      if Ascii.eqb c sep then EmptyString :: Split sep s'
      else match Split sep s' with
           | [] => [String c EmptyString]
           | l :: ls => String c l :: ls
           end
  end.

(** [strings.Join(elems, sep)] *)
Fixpoint Join (elems : list string) (sep : string) : string :=
  match elems with
  | [] => EmptyString
  | [x] => x
  | x :: xs => x +:+ sep +:+ Join xs sep
  end.

(** [strings.TrimRightFunc(s, f)]: drop the longest suffix of bytes
    satisfying [f]. *)
Fixpoint TrimRightFunc (f : ascii -> bool) (s : string) : string :=
  match s with
  | EmptyString => EmptyString
  | String c s' =>
      let t := TrimRightFunc f s' in
      if isEmpty t && f c then EmptyString else String c t
  end.

(** [strings.TrimRight(s, cutset)] for a one-byte cutset. *)
Definition TrimRight (s : string) (cut : ascii) : string :=
  TrimRightFunc (Ascii.eqb cut) s.

(** The white space of [unicode.IsSpace], by which [strings.TrimSpace]
    trims.  In ASCII: tab, line feed, vertical tab, form feed, carriage
    return and space. *)
Definition isSpace (c : ascii) : bool :=
  let n := nat_of_ascii c in
  ((9 <=? n)%nat && (n <=? 13)%nat) || (n =? 32)%nat.

Definition bytes (codes : list Z) : string :=
  string_of_list_ascii (map (fun code => ascii_of_nat (Z.to_nat code)) codes).

(** Beyond ASCII: U+0085, U+00A0, U+1680, U+2000 to U+200A, U+2028,
    U+2029, U+202F, U+205F and U+3000, here in their UTF-8 encodings.
    The rune decoded at the head of a string is one of these exactly
    when the string starts with its encoding, and the rune decoded at
    the end ([utf8.DecodeLastRuneInString]) exactly when the string ends
    with it; bytes that are no valid UTF-8 decode to U+FFFD, which is no
    white space. *)
Definition wideSpaces : list string :=
  [bytes [194; 133]; bytes [194; 160]; bytes [225; 154; 128];
   bytes [226; 128; 128]; bytes [226; 128; 129]; bytes [226; 128; 130];
   bytes [226; 128; 131]; bytes [226; 128; 132]; bytes [226; 128; 133];
   bytes [226; 128; 134]; bytes [226; 128; 135]; bytes [226; 128; 136];
   bytes [226; 128; 137]; bytes [226; 128; 138]; bytes [226; 128; 168];
   bytes [226; 128; 169]; bytes [226; 128; 175]; bytes [226; 129; 159];
   bytes [227; 128; 128]].

(** The number of bytes of the white-space character at the head of
    [s], when there is one; [wide] lists the encodings beyond ASCII. *)
Definition spaceWidth (wide : list string) (s : string) : option nat :=
  match s with
  | EmptyString => None
  | String c _ =>
      if isSpace c then Some 1%nat
      else String.length <$> List.find (fun enc => String.prefix enc s) wide
  end.

(** Dropping white-space characters from the head, as long as there are
    any; [skip] counts the bytes of the current one still to drop. *)
Fixpoint trimLeading (wide : list string) (skip : nat) (s : string) : string :=
  match s with
  | EmptyString => EmptyString
  | String _ s' =>
      match skip with
      | S k => trimLeading wide k s'
      | O =>
          match spaceWidth wide s with
          | Some (S k) => trimLeading wide k s'
          | _ => s
          end
      end
  end.

Definition reverse (s : string) : string :=
  string_of_list_ascii (rev (list_ascii_of_string s)).

(** [strings.TrimLeftFunc(s, unicode.IsSpace)] *)
Definition TrimLeftSpace (s : string) : string := trimLeading wideSpaces O s.

(** [strings.TrimRightFunc(s, unicode.IsSpace)]: the same from the end,
    that is, on the bytes in reverse order. *)
Definition TrimRightSpace (s : string) : string :=
  reverse (trimLeading (map reverse wideSpaces) O (reverse s)).

(** [strings.TrimSpace(s)] *)
Definition TrimSpace (s : string) : string := TrimRightSpace (TrimLeftSpace s).

(** [strings.ToLower(s)].  On a string of ASCII bytes Go lowers the
    letters A to Z byte by byte, and so does this definition.  On a
    string with other bytes Go decodes the runes and maps each through
    the case tables of package [unicode], which the model does not hold:
    there this definition, which leaves the bytes above 127 as they are,
    is not Go's function.  Of the two uses in the program, the test
    [HasPrefix(ToLower(subject), "re:")] comes out the same for every
    subject (only R and r are lowered to r, only E and e to e); the
    comparison in [isSelf] is Go's on ASCII texts, and the statements
    that depend on its result ask for such texts. *)
Definition lowerByte (c : ascii) : ascii :=
  let n := nat_of_ascii c in
  if (65 <=? n)%nat && (n <=? 90)%nat then ascii_of_nat (n + 32) else c.

Fixpoint ToLower (s : string) : string :=
  match s with
  | EmptyString => EmptyString
  | String c s' => String (lowerByte c) (ToLower s')
  end.

(** [strings.HasPrefix(s, prefix)] *)
Definition HasPrefix (s p : string) : bool := String.prefix p s.

(** [strings.LastIndex(s, sep)] for a one-byte [sep]; -1 when absent. *)
Fixpoint LastIndex (s : string) (sep : ascii) : Z :=
  match s with
  | EmptyString => -1
  | String c s' =>
      let r := LastIndex s' sep in
      if 0 <=? r then r + 1
      else if Ascii.eqb c sep then 0 else -1
  end.

(** The slice [s[i:j]] for [0 <= i <= j <= len(s)]; the two slices the
    program takes are within these bounds by the tests that guard them. *)
Definition slice (s : string) (i j : Z) : string :=
  String.substring (Z.to_nat i) (Z.to_nat (j - i)) s.

(** Replacement of matches from the left, as [strings.ReplaceAll] and
    [regexp.ReplaceAllString] do it: [matchLen s] is the number of bytes
    of the match that starts at the head of [s], if there is one.  After
    a match of [n > 0] bytes the scan goes on behind it ([skip] counts
    the bytes of the match still to drop); a byte where nothing matches
    is copied. *)
Fixpoint replaceMatches (matchLen : string -> option nat) (repl : string)
    (skip : nat) (s : string) : string :=
  match s with
  | EmptyString => EmptyString
  | String c s' =>
      match skip with
      | S k => replaceMatches matchLen repl k s'
      | O =>
          match matchLen s with
          | Some (S k) => repl +:+ replaceMatches matchLen repl k s'
          | _ => String c (replaceMatches matchLen repl O s')
          end
      end
  end.

(** [strings.ReplaceAll(s, old, new)] for a non-empty [old]. *)
Definition matchLiteral (old s : string) : option nat :=
  if String.prefix old s then Some (String.length old) else None.

Definition ReplaceAll (s old new : string) : string :=
  replaceMatches (matchLiteral old) new O s.

End strings.

(** ** Errors, panics and the record of library calls *)

Module errors.

(** What [fmt.Errorf] is given besides the format: [%s] and [%d]
    operands.  [ABytes n] stands for the text [formatBytes(n)], whose
    floating-point rendering is left out. *)
Inductive fmtArg : Type :=
| AStr (s : string)
| AInt (n : Z)
| ABytes (n : Z).

(** An [error] value: one made by a library or the operating system,
    one made by [fmt.Errorf(format, ...)] without [%w], or one made by
    [fmt.Errorf] with a [%w] verb, which wraps that verb's operand. *)
Inductive error : Type :=
| Lib (descr : string)
| Errorf (format : string) (args : list fmtArg)
| ErrorfW (format : string) (args : list fmtArg) (cause : error).

(** [errors.Unwrap] *)
Definition Unwrap (e : error) : option error :=
  match e with
  | ErrorfW _ _ cause => Some cause
  | _ => None
  end.

(** [Wraps cause e]: [e] is [cause] or wraps it, directly or through a
    chain of [%w] (what [errors.Is] follows). *)
Inductive Wraps (cause : error) : error -> Prop :=
| Wraps_refl : Wraps cause cause
| Wraps_step format args e :
    Wraps cause e -> Wraps cause (ErrorfW format args e).

End errors.

Module run.
Import errors.

(** How a Go function call ends: it returns, it panics, or it does not
    end at all, because a loop in it goes on for ever. *)
Inductive outcome (A : Type) : Type :=
| Returns (a : A)
| Panics (msg : string)
| Hangs.
Arguments Returns {A} a.
Arguments Panics {A} msg.
Arguments Hangs {A}.

#[export] Instance outcome_ret : MRet outcome := fun A a => Returns a.
#[export] Instance outcome_bind : MBind outcome := fun A B k m =>
  match m with
  | Returns a => k a
  | Panics msg => Panics msg
  | Hangs => Hangs
  end.
#[export] Instance outcome_fmap : FMap outcome := fun A B f m =>
  match m with
  | Returns a => Returns (f a)
  | Panics msg => Panics msg
  | Hangs => Hangs
  end.

End run.

(** ** Go's [regexp] package *)

Module regexp.
Import strings run.

(** The class [\s] of the RE2 syntax: tab, line feed, form feed,
    carriage return and space. *)
Definition isSpace (c : ascii) : bool :=
  let n := nat_of_ascii c in
  (n =? 9)%nat || (n =? 10)%nat || (n =? 12)%nat || (n =? 13)%nat || (n =? 32)%nat.

Definition isOctalDigit (c : ascii) : bool :=
  let n := nat_of_ascii c in (48 <=? n)%nat && (n <=? 55)%nat.

Definition isNonZeroDigit (c : ascii) : bool :=
  let n := nat_of_ascii c in (49 <=? n)%nat && (n <=? 57)%nat.

Definition startsWithOctal (s : string) : bool :=
  match s with
  | String c _ => isOctalDigit c
  | EmptyString => false
  end.

(** The escapes that [regexp/syntax] refuses because the RE2 syntax has
    no backreferences: a backslash and a digit 1-9 that does not start
    an octal escape (a digit 1-7 followed by another octal digit).  An
    escaped backslash is skipped as a pair. *)
Fixpoint scanEscapes (afterBackslash : bool) (expr : string) : option ascii :=
  match expr with
  | EmptyString => None
  | String c rest =>
      if afterBackslash then
        if isNonZeroDigit c && negb (isOctalDigit c && startsWithOctal rest)
        then Some c
        else scanEscapes false rest
      else scanEscapes (Ascii.eqb c "\"%char) rest
  end.

(** The digit of the first backreference of [expr]. *)
Definition backreference (expr : string) : option ascii := scanEscapes false expr.

(** A compiled expression: its source text and, as the meaning of that
    text, the length of the leftmost-first match at the head of a
    string. *)
Record Regexp : Type := mkRegexp {
  expr : string;
  matchLen : string -> option nat
}.

(** [regexp.MustCompile(expr)]: panics when [expr] does not parse.  Of
    the reasons for which an expression does not parse the model knows
    the one the program runs into, the backreference, for which
    [regexp/syntax] reports an invalid escape sequence.  The message
    quotes the expression and the escape in backquotes, as Go does for
    texts that hold no backquote and no control character; the
    expressions of the program are such. *)
Definition MustCompile (expr : string) (meaning : string -> option nat)
    : outcome Regexp :=
  match backreference expr with
  | Some digit =>
      Panics ("regexp: Compile(`" +:+ expr
              +:+ "`): error parsing regexp: invalid escape sequence: `\"
              +:+ String digit "`")
  | None => Returns (mkRegexp expr meaning)
  end.

(** [re.ReplaceAllString(src, repl)] for a [repl] without [$]. *)
Definition ReplaceAllString (re : Regexp) (src repl : string) : string :=
  replaceMatches (matchLen re) repl O src.

End regexp.

(** ** Go's [strconv] package, as far as the program uses it *)

Module strconv.
Import strings.

Definition isDigit (c : ascii) : bool :=
  let n := nat_of_ascii c in (48 <=? n)%nat && (n <=? 57)%nat.

(** The value of a run of decimal digits, read from the left; [None]
    when a byte is no digit. *)
Fixpoint digitsValue (acc : Z) (s : string) : option Z :=
  match s with
  | EmptyString => Some acc
  | String c s' =>
      if isDigit c then digitsValue (10 * acc + (Z.of_nat (nat_of_ascii c) - 48)) s'
      else None
  end.

(** The range of [int] on a 64-bit platform. *)
Definition inIntRange (n : Z) : bool := (- 2 ^ 63 <=? n) && (n <=? 2 ^ 63 - 1).

(** [strconv.Atoi(s)]: an optional sign and one or more decimal digits,
    within the range of [int]; [None] stands for its error. *)
Definition Atoi (s : string) : option Z :=
  match s with
  | EmptyString => None
  | String c rest =>
      let magnitude (digits : string) : option Z :=
        if isEmpty digits then None else digitsValue 0 digits in
      let signed : option Z :=
        if Ascii.eqb c "-"%char then Z.opp <$> magnitude rest
        else if Ascii.eqb c "+"%char then magnitude rest
        else magnitude s in
      match signed with
      | Some n => if inIntRange n then Some n else None
      | None => None
      end
  end.

(** [strconv.ParseBool(s)]: the twelve spellings it accepts. *)
Definition ParseBool (s : string) : option bool :=
  if existsb (String.eqb s) ["1"; "t"; "T"; "TRUE"; "true"; "True"] then Some true
  else if existsb (String.eqb s) ["0"; "f"; "F"; "FALSE"; "false"; "False"] then Some false
  else None.

End strconv.

(** ** internal/config *)

Module config.
Import strings errors.

Record SMTPConfig : Type := mkSMTPConfig {
  smtpHost : string;
  smtpPort : Z;
  smtpUsername : string;
  smtpPassword : string;
  smtpUseTLS : bool;
  StartTLS : bool;
  From : string
}.

Record IMAPConfig : Type := mkIMAPConfig {
  imapHost : string;
  imapPort : Z;
  imapUsername : string;
  imapPassword : string;
  imapUseTLS : bool;
  Mailbox : string
}.

Record Config : Type := mkConfig {
  SMTP : SMTPConfig;
  IMAP : IMAPConfig
}.

Definition ValidateSMTP (c : Config) : option error :=
  if isEmpty (smtpHost (SMTP c)) then
    Some (Errorf "SMTP host is required (set GHOSTMAIL_SMTP_HOST)" [])
  else if isEmpty (smtpUsername (SMTP c)) then
    Some (Errorf "SMTP username is required (set GHOSTMAIL_SMTP_USERNAME)" [])
  else if isEmpty (smtpPassword (SMTP c)) then
    Some (Errorf "SMTP password is required (set GHOSTMAIL_SMTP_PASSWORD)" [])
  else None.

Definition ValidateIMAP (c : Config) : option error :=
  if isEmpty (imapHost (IMAP c)) then
    Some (Errorf "IMAP host is required (set GHOSTMAIL_IMAP_HOST)" [])
  else if isEmpty (imapUsername (IMAP c)) then
    Some (Errorf "IMAP username is required (set GHOSTMAIL_IMAP_USERNAME)" [])
  else if isEmpty (imapPassword (IMAP c)) then
    Some (Errorf "IMAP password is required (set GHOSTMAIL_IMAP_PASSWORD)" [])
  else None.

(** The environment: what [os.Getenv] returns for a key, [""] for a
    variable that is not set. *)
Definition environment : Type := string -> string.

(** [getEnv] retrieves an environment variable or returns a default value. *)
Definition getEnv (env : environment) (key defaultValue : string) : string :=
  let value := env key in
  if negb (isEmpty value) then value else defaultValue.

Definition getEnvAsInt (env : environment) (key : string) (defaultValue : Z) : Z :=
  let valueStr := getEnv env key "" in
  if isEmpty valueStr then defaultValue
  else match strconv.Atoi valueStr with
       | None => defaultValue
       | Some value => value
       end.

Definition getEnvAsBool (env : environment) (key : string) (defaultValue : bool) : bool :=
  let valueStr := getEnv env key "" in
  if isEmpty valueStr then defaultValue
  else match strconv.ParseBool valueStr with
       | None => defaultValue
       | Some value => value
       end.

(** [Load] loads configuration from environment variables; the error it
    returns is always [nil]. *)
Definition Load (env : environment) : Config :=
  mkConfig
    (mkSMTPConfig
       (getEnv env "GHOSTMAIL_SMTP_HOST" "")
       (getEnvAsInt env "GHOSTMAIL_SMTP_PORT" 587)
       (getEnv env "GHOSTMAIL_SMTP_USERNAME" "")
       (getEnv env "GHOSTMAIL_SMTP_PASSWORD" "")
       (getEnvAsBool env "GHOSTMAIL_SMTP_USE_TLS" false)
       (getEnvAsBool env "GHOSTMAIL_SMTP_STARTTLS" true)
       (getEnv env "GHOSTMAIL_SMTP_FROM" ""))
    (mkIMAPConfig
       (getEnv env "GHOSTMAIL_IMAP_HOST" "")
       (getEnvAsInt env "GHOSTMAIL_IMAP_PORT" 993)
       (getEnv env "GHOSTMAIL_IMAP_USERNAME" "")
       (getEnv env "GHOSTMAIL_IMAP_PASSWORD" "")
       (getEnvAsBool env "GHOSTMAIL_IMAP_USE_TLS" true)
       (getEnv env "GHOSTMAIL_IMAP_MAILBOX" "INBOX")).

End config.

(** ** The libraries the program calls

    What the IMAP client, the MIME reader, the SMTP dialer and the file
    system answer is an input of the model ([world]); what the program
    asks of them is recorded as a list of [call]s. *)

Module lib.
Import strings errors run.

(** [time.Time], kept abstract: only [Format] is applied to it. *)
Definition Time : Type := Z.

(** go-imap: addresses, envelopes and fetched messages. *)
Record Address : Type := mkAddress {
  PersonalName : string;
  MailboxName : string;
  HostName : string
}.

Record Envelope : Type := mkEnvelope {
  envDate : Time;
  envSubject : string;
  envFrom : list (option Address);
  envTo : list (option Address);
  envCc : list (option Address);
  envBcc : list (option Address)
}.

(** go-message/mail: what a call of [mr.NextPart()] gives before the
    listing ends.  For an inline part the model keeps the media type
    that [h.ContentType()] yields and the bytes that [io.ReadAll]
    delivers; the code discards the errors of both. *)
Inductive part : Type :=
| PartError (err : error)
| InlinePart (contentType : string) (data : string)
| AttachmentPart.

(** How the listing of the parts ends: [mr.NextPart()] returns
    [io.EOF], or it never does and returns another error at every
    further call (as for a multipart body that is cut before its
    closing boundary). *)
Inductive listingEnd : Type :=
| EndOfFile
| ErrorForEver (err : error).

Record mailReader : Type := mkMailReader {
  HeaderGet : string -> string;
  NextParts : list part;
  PartsEnd : listingEnd
}.

(** A fetched body section, an [io.Reader]: what [mail.CreateReader]
    makes of it and, when that fails, what [io.ReadAll] then reads. *)
Record sectionData : Type := mkSectionData {
  CreateReader : error + mailReader;
  ReadAll : error + string
}.

Record imapMessage : Type := mkImapMessage {
  SeqNum : N;
  Uid : N;
  Flags : list string;
  Envelope_ : option Envelope;
  GetBody : option sectionData
}.

Inductive FetchItem : Type :=
| FetchUid | FetchEnvelope | FetchFlags | FetchRFC822Size | FetchBody
| FetchBodySection.

(** gomail: the message under construction and the dialer. *)
Record gomailMessage : Type := mkGomailMessage {
  header : gmap string (list string);
  bodyParts : list (string * string);
  attached : list string
}.

Definition NewMessage : gomailMessage := mkGomailMessage ∅ [] [].

Definition SetHeader (m : gomailMessage) (field : string) (value : list string)
    : gomailMessage :=
  mkGomailMessage (<[field := value]> (header m)) (bodyParts m) (attached m).

Definition SetBody (m : gomailMessage) (contentType body : string) : gomailMessage :=
  mkGomailMessage (header m) [(contentType, body)] (attached m).

Definition AddAlternative (m : gomailMessage) (contentType body : string)
    : gomailMessage :=
  mkGomailMessage (header m) (bodyParts m ++ [(contentType, body)]) (attached m).

Definition Attach (m : gomailMessage) (filename : string) : gomailMessage :=
  mkGomailMessage (header m) (bodyParts m) (attached m ++ [filename]).

Record Dialer : Type := mkDialer {
  dHost : string;
  dPort : Z;
  dUsername : string;
  dPassword : string;
  SSL : bool;
  TLSConfig : option string
}.

(** The calls the program makes.  What [Logout] returns is discarded
    wherever it is called, so no answer is kept for it. *)
Inductive call : Type :=
| Dial (tls : bool) (host : string) (port : Z)
| Login (username password : string)
| Logout
| Select (mailbox : string) (readOnly : bool)
| UidSearch (withoutFlags : list string)
| UidFetch (uids : list N) (items : list FetchItem)
| DialAndSend (d : Dialer) (m : gomailMessage)
| Stat (path : string)
| ReadFile (path : string).

(** The answers.  [uidFetch] gives the messages sent on the channel and
    then the value sent on [done]: the goroutine that runs the fetch and
    the loop that drains the channel are modelled one after the other. *)
Record world : Type := mkWorld {
  dial : option error;
  login : option error;
  select : error + N;
  uidSearch : list string -> error + list N;
  uidFetch : list N -> list imapMessage * option error;
  dialAndSend : gomailMessage -> option error;
  stat : string -> error + Z;
  readFile : string -> error + string;
  Format : Time -> string -> string
}.

(** A computation that calls libraries: the calls made, in order, and
    how it ended. *)
Definition io (A : Type) : Type := (list call * outcome A)%type.

#[export] Instance io_ret : MRet io := fun A a => ([], Returns a).
#[export] Instance io_bind : MBind io := fun A B k m =>
  match snd m with
  | Returns a => (fst m ++ fst (k a), snd (k a))
  | Panics msg => (fst m, Panics msg)
  | Hangs => (fst m, Hangs)
  end.

Definition does {A : Type} (c : call) (answer : A) : io A := ([c], Returns answer).

(** [defer c] at the head of [body]: [c] is made when [body] returns or
    panics, and not when [body] does not end. *)
Definition defer {A : Type} (c : call) (body : io A) : io A :=
  match snd body with
  | Hangs => body
  | _ => (fst body ++ [c], snd body)
  end.

(** A step that calls no library. *)
Definition local {A : Type} (m : outcome A) : io A := ([], m).

Definition calls {A : Type} (m : io A) : list call := fst m.
Definition result {A : Type} (m : io A) : outcome A := snd m.

End lib.

(** ** pkg/email: the message type *)

Module emailtypes.
Import lib.

Record Message : Type := mkMessage {
  UID : N;
  msgSeqNum : N;
  MessageID : string;
  Subject : string;
  msgFrom : string;
  To : list string;
  CC : list string;
  BCC : list string;
  Date : Time;
  Body : string;
  BodyPreview : string;
  msgFlags : list string
}.

(** The zero value of the struct. *)
Definition zero : Message :=
  mkMessage 0%N 0%N "" "" "" [] [] [] 0 "" "" [].

End emailtypes.

(** ** internal/email: the reader *)

Module email.
Import strings errors run regexp config lib emailtypes.

(** *** [stripHTML] *)

(** Case folding of [(?i)] on ASCII letters. *)
Definition foldEq (a b : ascii) : bool := Ascii.eqb (lowerByte a) (lowerByte b).

Fixpoint prefixFold (p s : string) : bool :=
  match p, s with
  | EmptyString, _ => true
  | String a p', String b s' => foldEq a b && prefixFold p' s'
  | String _ _, EmptyString => false
  end.

Fixpoint drop (n : nat) (s : string) : string :=
  match n, s with
  | O, _ => s
  | S n', String _ s' => drop n' s'
  | S _, EmptyString => EmptyString
  end.

(** Length of the longest prefix of bytes satisfying [f]. *)
Fixpoint spanLen (f : ascii -> bool) (s : string) : nat :=
  match s with
  | String c s' => if f c then S (spanLen f s') else O
  | EmptyString => O
  end.

(** Number of bytes up to and including the first [c]. *)
Fixpoint upTo (c : ascii) (s : string) : option nat :=
  match s with
  | EmptyString => None
  | String a s' => if Ascii.eqb a c then Some 1%nat else S <$> upTo c s'
  end.

(** Number of bytes up to and including the first occurrence of
    [close], compared up to case. *)
Fixpoint findClose (close s : string) : option nat :=
  if prefixFold close s then Some (String.length close)
  else match s with
       | EmptyString => None
       | String _ s' => S <$> findClose close s'
       end.

(** [<[^>]+>]: a ["<"], one or more bytes other than [">"], a [">"].
    The class cannot run over a [">"], so the match ends at the first
    [">"] behind the ["<"], and there is one only if that is not the
    very next byte. *)
Definition matchTag (s : string) : option nat :=
  match s with
  | String c s1 =>
      if Ascii.eqb c "<"%char then
        match upTo ">"%char s1 with
        | Some (S (S k)) => Some (S (S (S k)))
        | _ => None
        end
      else None
  | EmptyString => None
  end.

(** [(?i)<br\s*/?>] *)
Definition matchBr (s : string) : option nat :=
  if prefixFold "<br" s then
    let n := spanLen regexp.isSpace (drop 3 s) in
    let t := drop n (drop 3 s) in
    if String.prefix "/>" t then Some (n + 5)%nat
    else if String.prefix ">" t then Some (n + 4)%nat
    else None
  else None.

(** [(?i)</p>] *)
Definition matchCloseP (s : string) : option nat :=
  if prefixFold "</p>" s then Some 4%nat else None.

(** [\s+] *)
Definition matchSpaces (s : string) : option nat :=
  match spanLen regexp.isSpace s with
  | O => None
  | n => Some n
  end.

(** [(?i)<(script|style)[^>]*>[\s\S]*?</\1>] as an engine with
    backreferences reads it: an opening [script] or [style] tag, then
    as little as possible up to the closing tag of the same name. *)
Definition matchElement (name s : string) : option nat :=
  let open := "<" +:+ name in
  if prefixFold open s then
    match upTo ">"%char (drop (String.length open) s) with
    | Some n =>
        match findClose (("</" +:+ name) +:+ ">")
                (drop (String.length open + n) s) with
        | Some m => Some (String.length open + n + m)%nat
        | None => None
        end
    | None => None
    end
  else None.

Definition matchScriptStyle (s : string) : option nat :=
  match matchElement "script" s with
  | Some n => Some n
  | None => matchElement "style" s
  end.

(** [stripHTML]: every statement of the function, in its order. *)
Definition stripHTML (html : string) : outcome string :=
  scriptRe ← MustCompile "(?i)<(script|style)[^>]*>[\s\S]*?</\1>" matchScriptStyle;
  let html := ReplaceAllString scriptRe html "" in
  brRe ← MustCompile "(?i)<br\s*/?>" matchBr;
  let html := ReplaceAllString brRe html NL in
  pRe ← MustCompile "(?i)</p>" matchCloseP;
  let html := ReplaceAllString pRe html NL in
  tagRe ← MustCompile "<[^>]+>" matchTag;
  let html := ReplaceAllString tagRe html "" in
  let html := ReplaceAll html "&nbsp;" " " in
  let html := ReplaceAll html "&lt;" "<" in
  let html := ReplaceAll html "&gt;" ">" in
  let html := ReplaceAll html "&amp;" "&" in
  let html := ReplaceAll html "&quot;" (String "034"%char EmptyString) in
  let html := ReplaceAll html "&#39;" "'" in
  wsRe ← MustCompile "\s+" matchSpaces;
  let html := ReplaceAllString wsRe html " " in
  Returns (TrimSpace html).

(** *** [extractBody], [createPreview], [convertMessage] *)

(** The loop over [mr.NextPart()]: [io.EOF] ends it, any other error
    is skipped with [continue], and only inline parts are looked at.
    When [mr.NextPart()] goes on returning an error that is not
    [io.EOF], the loop goes on with it and never ends. *)
Fixpoint partsLoop (ps : list part) (ending : listingEnd) (textBody htmlBody : string)
    : outcome (string * string) :=
  match ps with
  | [] =>
      match ending with
      | EndOfFile => Returns (textBody, htmlBody)
      | ErrorForEver _ => Hangs
      end
  | PartError _ :: rest => partsLoop rest ending textBody htmlBody
  | InlinePart contentType data :: rest =>
      if HasPrefix contentType "text/plain" then partsLoop rest ending data htmlBody
      else if HasPrefix contentType "text/html" then partsLoop rest ending textBody data
      else partsLoop rest ending textBody htmlBody
  | AttachmentPart :: rest => partsLoop rest ending textBody htmlBody
  end.

(** [extractBody] returns [(body, messageID, err)]. *)
Definition extractBody (reader : sectionData)
    : outcome (string * string * option error) :=
  match CreateReader reader with
  | inl _ =>
      match ReadAll reader with
      | inl err => Returns ("", "", Some err)
      | inr data => Returns (data, "", None)
      end
  | inr mr =>
      let messageID := HeaderGet mr "Message-Id" in
      let messageID :=
        if isEmpty messageID then HeaderGet mr "Message-ID" else messageID in
      bodies ← partsLoop (NextParts mr) (PartsEnd mr) "" "";
      let '(textBody, htmlBody) := bodies in
      if negb (isEmpty textBody) then Returns (textBody, messageID, None)
      else if negb (isEmpty htmlBody) then
        stripped ← stripHTML htmlBody;
        Returns (stripped, messageID, None)
      else Returns ("", messageID, None)
  end.

(** [createPreview]: the loop over the lines, with the slice [preview]
    and the counter [currentLen] as loop state; [break] ends the loop. *)
Fixpoint previewLoop (lines : list string) (preview : list string)
    (currentLen maxLen : Z) : list string :=
  match lines with
  | [] => preview
  | line0 :: rest =>
      let line := TrimSpace line0 in
      if isEmpty line then previewLoop rest preview currentLen maxLen
      else if currentLen + len line >? maxLen then
        let remaining := maxLen - currentLen in
        if remaining >? 0 then preview ++ [slice line 0 remaining]
        else preview
      else previewLoop rest (preview ++ [line]) (currentLen + (len line + 1)) maxLen
  end.

Definition createPreview (body : string) (maxLen : Z) : string :=
  let lines := Split nl body in
  let preview := previewLoop lines [] 0 maxLen in
  let result := Join preview " " in
  if len body >? maxLen then result +:+ "..." else result.

Definition formatAddress (addr : option Address) : string :=
  match addr with
  | None => ""
  | Some a =>
      if negb (isEmpty (PersonalName a)) then
        PersonalName a +:+ " <" +:+ MailboxName a +:+ "@" +:+ HostName a +:+ ">"
      else MailboxName a +:+ "@" +:+ HostName a
  end.

Definition convertMessage (msg : imapMessage) (fullBody : bool) : Message :=
  match Envelope_ msg with
  | None =>
      mkMessage (Uid msg) (SeqNum msg) "" "" "" [] [] [] 0 "" "" (Flags msg)
  | Some env =>
      mkMessage (Uid msg) (SeqNum msg) "" (envSubject env)
        (match envFrom env with
         | a :: _ => formatAddress a
         | [] => ""
         end)
        (map formatAddress (envTo env))
        (map formatAddress (envCc env))
        (map formatAddress (envBcc env))
        (envDate env) "" "" (Flags msg)
  end.

(** *** [Connect], [ListMessages], [ReadMessage] *)

Record Reader : Type := NewReader { rconfig : IMAPConfig }.

(** [Connect]: the client it returns is kept implicit. *)
Definition Connect (r : Reader) (w : world) : io (error + unit) :=
  err ← does (Dial (imapUseTLS (rconfig r)) (imapHost (rconfig r)) (imapPort (rconfig r)))
           (dial w);
  match err with
  | Some err => mret (inl (ErrorfW "failed to connect to IMAP server: %w" [] err))
  | None =>
      err ← does (Login (imapUsername (rconfig r)) (imapPassword (rconfig r))) (login w);
      match err with
      | Some err =>
          _ ← does Logout tt;
          mret (inl (ErrorfW "failed to login: %w" [] err))
      | None => mret (inr tt)
      end
  end.

Definition SeenFlag : string := "\Seen".

(** The limit: [uids[start:]] with [start = len(uids) - limit]. *)
Definition applyLimit (limit : Z) (uids : list N) : list N :=
  if (limit >? 0) && (Z.of_nat (length uids) >? limit) then
    let start := Z.of_nat (length uids) - limit in
    skipn (Z.to_nat start) uids
  else uids.

Definition ListMessages (r : Reader) (w : world) (limit : Z) (unreadOnly : bool)
    : io (error + list Message) :=
  c ← Connect r w;
  match c with
  | inl err => mret (inl err)
  | inr _ =>
      defer Logout (
        mbox ← does (Select (Mailbox (rconfig r)) false) (select w);
        match mbox with
        | inl err => mret (inl (ErrorfW "failed to select mailbox: %w" [] err))
        | inr messages =>
            if (messages =? 0)%N then mret (inr [])
            else
              let criteria := if unreadOnly then [SeenFlag] else [] in
              found ← does (UidSearch criteria) (uidSearch w criteria);
              match found with
              | inl err => mret (inl (ErrorfW "failed to search messages: %w" [] err))
              | inr uids =>
                  if (length uids =? 0)%nat then mret (inr [])
                  else
                    let uids := applyLimit limit uids in
                    let items := [FetchUid; FetchEnvelope; FetchFlags; FetchRFC822Size] in
                    fetched ← does (UidFetch uids items) (uidFetch w uids);
                    let result := map (fun msg => convertMessage msg false) (fst fetched) in
                    match snd fetched with
                    | Some err => mret (inl (ErrorfW "failed to fetch messages: %w" [] err))
                    | None => mret (inr result)
                    end
              end
        end)
  end.

(** The loop of [ReadMessage] over the fetched messages; [result] is
    the last one converted.  An error of [extractBody] leaves body,
    Message-ID and preview unset. *)
Fixpoint readLoop (msgs : list imapMessage) (result : option Message)
    : outcome (option Message) :=
  match msgs with
  | [] => Returns result
  | msg :: rest =>
      let emsg := convertMessage msg true in
      emsg ←
        match GetBody msg with
        | Some sectionData =>
            extracted ← extractBody sectionData;
            match extracted with
            | (body, messageID, None) =>
                Returns (mkMessage (UID emsg) (msgSeqNum emsg) messageID (Subject emsg)
                           (msgFrom emsg) (To emsg) (CC emsg) (BCC emsg) (Date emsg)
                           body (createPreview body 200) (msgFlags emsg))
            | (_, _, Some _) => Returns emsg
            end
        | None => Returns emsg
        end;
      readLoop rest (Some emsg)
  end.

Definition ReadMessage (r : Reader) (w : world) (uid : N) : io (error + Message) :=
  c ← Connect r w;
  match c with
  | inl err => mret (inl err)
  | inr _ =>
      defer Logout (
        selected ← does (Select (Mailbox (rconfig r)) false) (select w);
        match selected with
        | inl err => mret (inl (ErrorfW "failed to select mailbox: %w" [] err))
        | inr _ =>
            let items := [FetchUid; FetchEnvelope; FetchFlags; FetchRFC822Size;
                          FetchBody; FetchBodySection] in
            fetched ← does (UidFetch [uid] items) (uidFetch w [uid]);
            result ← local (readLoop (fst fetched) None);
            match snd fetched with
            | Some err => mret (inl (ErrorfW "failed to fetch message: %w" [] err))
            | None =>
                match result with
                | None => mret (inl (Errorf "message not found" []))
                | Some m => mret (inr m)
                end
            end
        end)
  end.

(** *** The sender: [Send] and its options, [FormatQuotedReply] *)

Record Sender : Type := NewSender { sconfig : SMTPConfig }.

Record sendOptions : Type := mkSendOptions {
  cc : list string;
  bcc : list string;
  htmlBody : string;
  attachments : list string;
  headers : gmap string string;
  inReplyTo : string;
  references : list string
}.

Definition SendOption : Type := sendOptions -> sendOptions.

Definition WithCC (v : list string) : SendOption := fun o =>
  mkSendOptions v (bcc o) (htmlBody o) (attachments o) (headers o) (inReplyTo o) (references o).

Definition WithBCC (v : list string) : SendOption := fun o =>
  mkSendOptions (cc o) v (htmlBody o) (attachments o) (headers o) (inReplyTo o) (references o).

Definition WithHTMLBody (html : string) : SendOption := fun o =>
  mkSendOptions (cc o) (bcc o) html (attachments o) (headers o) (inReplyTo o) (references o).

Definition WithAttachments (files : list string) : SendOption := fun o =>
  mkSendOptions (cc o) (bcc o) (htmlBody o) files (headers o) (inReplyTo o) (references o).

Definition WithHeaders (h : gmap string string) : SendOption := fun o =>
  mkSendOptions (cc o) (bcc o) (htmlBody o) (attachments o) h (inReplyTo o) (references o).

Definition WithInReplyTo (messageID : string) : SendOption := fun o =>
  mkSendOptions (cc o) (bcc o) (htmlBody o) (attachments o) (headers o) messageID (references o).

Definition WithReferences (refs : list string) : SendOption := fun o =>
  mkSendOptions (cc o) (bcc o) (htmlBody o) (attachments o) (headers o) (inReplyTo o) refs.

(** [&sendOptions{}] with every option applied in order. *)
Definition applyOptions (opts : list SendOption) : sendOptions :=
  fold_left (fun o opt => opt o) opts (mkSendOptions [] [] "" [] ∅ "" []).

(** The message [Send] builds before it dials. *)
Definition buildMessage (s : Sender) (to : list string) (subject body : string)
    (options : sendOptions) : gomailMessage :=
  let m := NewMessage in
  let from := From (sconfig s) in
  let from := if isEmpty from then smtpUsername (sconfig s) else from in
  let m := SetHeader m "From" [from] in
  let m := SetHeader m "To" to in
  let m := SetHeader m "Subject" [subject] in
  let m := if (0 <? length (cc options))%nat then SetHeader m "Cc" (cc options) else m in
  let m := if (0 <? length (bcc options))%nat then SetHeader m "Bcc" (bcc options) else m in
  let m := if negb (isEmpty (inReplyTo options))
           then SetHeader m "In-Reply-To" [inReplyTo options] else m in
  let m := if (0 <? length (references options))%nat
           then SetHeader m "References" (references options) else m in
  let m := map_fold (fun key value m => SetHeader m key [value]) m (headers options) in
  let m := if negb (isEmpty (htmlBody options)) then
             let m := SetBody m "text/html" (htmlBody options) in
             if negb (isEmpty body) then AddAlternative m "text/plain" body else m
           else SetBody m "text/plain" body in
  fold_left Attach (attachments options) m.

Definition newDialer (s : Sender) : Dialer :=
  let c := sconfig s in
  if smtpUseTLS c then
    mkDialer (smtpHost c) (smtpPort c) (smtpUsername c) (smtpPassword c) true None
  else if StartTLS c then
    mkDialer (smtpHost c) (smtpPort c) (smtpUsername c) (smtpPassword c) false
      (Some (smtpHost c))
  else mkDialer (smtpHost c) (smtpPort c) (smtpUsername c) (smtpPassword c) false None.

Definition Send (s : Sender) (w : world) (to : list string) (subject body : string)
    (opts : list SendOption) : io (option error) :=
  if (length to =? 0)%nat then
    mret (Some (Errorf "at least one recipient is required" []))
  else
    let options := applyOptions opts in
    let m := buildMessage s to subject body options in
    let d := newDialer s in
    err ← does (DialAndSend d m) (dialAndSend w m);
    match err with
    | Some err => mret (Some (ErrorfW "failed to send email: %w" [] err))
    | None => mret None
    end.

(** [FormatQuotedReply]: the [strings.Builder] is the accumulated
    string; every [WriteString] appends. *)
Definition quoteLines (result : string) (lines : list string) : string :=
  fold_left (fun acc line => ((acc +:+ "> ") +:+ line) +:+ NL) lines result.

Definition FormatQuotedReply (replyBody originalBody from date : string) : string :=
  let result := EmptyString in
  let result :=
    if negb (isEmpty replyBody) then (result +:+ replyBody) +:+ (NL +:+ NL)
    else result in
  let result := result +:+ "On " in
  let result := result +:+ date in
  let result := result +:+ ", " in
  let result := result +:+ from in
  let result := result +:+ (" wrote:" +:+ NL) in
  let lines := Split nl originalBody in
  let result := quoteLines result lines in
  TrimRight result nl.

End email.

(** ** internal/cli: the [reply], [send], [read] and [inbox] commands *)

Module cli.
Import strings errors run config lib emailtypes.

(** The global flags [--json], [--no-color], [--verbose]. *)
Record globals : Type := mkGlobals {
  jsonOutput : bool;
  noColor : bool;
  verbose : bool
}.

(** How a command's [RunE] ends: it returns [nil], it returns an
    error, or the process is ended by [os.Exit] after the error was
    printed.  What is printed on success is left out. *)
Inductive cmdResult : Type :=
| ReturnsNil
| ReturnsErr (err : error)
| Exits (status : Z) (printed : error).

Definition handleError (g : globals) (err : error) : cmdResult :=
  if jsonOutput g then Exits 1 err else ReturnsErr err.

(** [isSelf] checks if an address belongs to the current user. *)
Definition isSelf (addr from username : string) : bool :=
  let addr := ToLower addr in
  let from := ToLower from in
  let username := ToLower username in
  let addr :=
    let idx := LastIndex addr "<"%char in
    if negb (idx =? -1) then
      let endIdx := LastIndex addr ">"%char in
      if negb (endIdx =? -1) && (endIdx >? idx) then slice addr (idx + 1) endIdx
      else addr
    else addr in
  String.eqb addr from || String.eqb addr username.

Module reply.

Record flags : Type := mkFlags {
  uid : N;
  mailbox : string;
  body : string;
  bodyFile : string;
  all : bool;
  noQuote : bool
}.

(** The two loops that fill [cc] under [--all]. *)
Definition ccFromCC (smtp : SMTPConfig) (original : Message) (cc : list string)
    : list string :=
  fold_left (fun cc addr =>
               if negb (isSelf addr (From smtp) (smtpUsername smtp))
               then cc ++ [addr] else cc)
            (CC original) cc.

Definition ccFromTo (smtp : SMTPConfig) (original : Message) (cc : list string)
    : list string :=
  fold_left (fun cc addr =>
               if negb (isSelf addr (From smtp) (smtpUsername smtp))
                  && negb (String.eqb addr (msgFrom original))
               then
                 let found := existsb (fun existing => String.eqb existing addr) cc in
                 if negb found then cc ++ [addr] else cc
               else cc)
            (To original) cc.

Definition buildCC (all : bool) (smtp : SMTPConfig) (original : Message)
    : list string :=
  if all then ccFromTo smtp original (ccFromCC smtp original []) else [].

Definition buildSubject (original : Message) : string :=
  let subject := Subject original in
  if negb (HasPrefix (ToLower subject) "re:") then "Re: " +:+ subject else subject.

Definition buildOptions (cc : list string) (original : Message)
    : list email.SendOption :=
  let references :=
    if negb (isEmpty (MessageID original)) then [MessageID original] else [] in
  let opts := [] in
  let opts := if (0 <? length cc)%nat then opts ++ [email.WithCC cc] else opts in
  if negb (isEmpty (MessageID original)) then
    (opts ++ [email.WithInReplyTo (MessageID original)])
      ++ [email.WithReferences references]
  else opts.

(** What follows the fetch of the original message. *)
Definition sendReply (f : flags) (g : globals) (cfg : Config) (w : world)
    (body : string) (original : Message) : io cmdResult :=
  let to := [msgFrom original] in
  let cc := buildCC (all f) (SMTP cfg) original in
  let subject := buildSubject original in
  let replyBody :=
    if noQuote f then body
    else
      let dateStr := Format w (Date original) "2006-01-02 15:04" in
      email.FormatQuotedReply body (Body original) (msgFrom original) dateStr in
  let opts := buildOptions cc original in
  err ← email.Send (email.NewSender (SMTP cfg)) w to subject replyBody opts;
  match err with
  | Some err => mret (handleError g err)
  | None => mret ReturnsNil
  end.

(** [cfg.IMAP.Mailbox = mailbox] when the flag is given. *)
Definition overrideMailbox (mailbox : string) (imap : IMAPConfig) : IMAPConfig :=
  if negb (isEmpty mailbox) then
    mkIMAPConfig (imapHost imap) (imapPort imap) (imapUsername imap)
      (imapPassword imap) (imapUseTLS imap) mailbox
  else imap.

(** [RunE] of the reply command; [cfg] is what [config.Load()]
    returned (it never fails). *)
Definition run (f : flags) (g : globals) (cfg : Config) (w : world) : io cmdResult :=
  if (uid f =? 0)%N then
    mret (handleError g (Errorf
      "UID is required (use --uid). Get from 'ghostmail inbox'. Use --help for usage info" []))
  else
    match ValidateIMAP cfg with
    | Some err =>
        mret (handleError g (ErrorfW "IMAP config error: %w. Use --help for usage info" [] err))
    | None =>
    match ValidateSMTP cfg with
    | Some err =>
        mret (handleError g (ErrorfW "SMTP config error: %w. Use --help for usage info" [] err))
    | None =>
        read ←
          (if negb (isEmpty (bodyFile f)) then
             does (ReadFile (bodyFile f)) (readFile w (bodyFile f))
           else mret (inr (body f)));
        match read with
        | inl err =>
            mret (handleError g (ErrorfW
              "failed to read body file: %w. Use --help for usage info" [] err))
        | inr body =>
            if isEmpty body then
              mret (handleError g (Errorf
                "reply body is required (use --body or --body-file). Use --help for usage info" []))
            else
              let imap := overrideMailbox (mailbox f) (IMAP cfg) in
              original ← email.ReadMessage (email.NewReader imap) w (uid f);
              match original with
              | inl err =>
                  mret (handleError g (ErrorfW
                    "failed to fetch original message: %w. Use --help for usage info" [] err))
              | inr original => sendReply f g cfg w body original
              end
        end
    end
    end.

End reply.

Module send.

Record flags : Type := mkFlags {
  to : list string;
  cc : list string;
  bcc : list string;
  subject : string;
  body : string;
  bodyFile : string;
  htmlFile : string;
  attachments : list string;
  inReplyTo : string
}.

Definition maxAttachments : Z := 5.
Definition maxFileSize : Z := 10 * 1024 * 1024.

(** The loop over the attachments: the first failure ends it. *)
Fixpoint checkAttachments (w : world) (atts : list string) : io (option error) :=
  match atts with
  | [] => mret None
  | att :: rest =>
      info ← does (Stat att) (stat w att);
      match info with
      | inl err =>
          mret (Some (ErrorfW "cannot access attachment %s: %w. Use --help for usage info"
                        [AStr att] err))
      | inr size =>
          if size >? maxFileSize then
            mret (Some (Errorf
              "attachment %s is too large: %s (max %s). Use --help for usage info"
              [AStr att; ABytes size; ABytes maxFileSize]))
          else checkAttachments w rest
      end
  end.

Definition readOptional (w : world) (path : string) (current : string)
    : io (error + string) :=
  if negb (isEmpty path) then does (ReadFile path) (readFile w path)
  else mret (inr current).

(** [RunE] of the send command; [cfg] is what [config.Load()]
    returned (it never fails). *)
Definition run (f : flags) (g : globals) (cfg : Config) (w : world) : io cmdResult :=
  match ValidateSMTP cfg with
  | Some err => mret (handleError g err)
  | None =>
      read ← readOptional w (bodyFile f) (body f);
      match read with
      | inl err =>
          mret (handleError g (ErrorfW
            "failed to read body file: %w. Use --help for usage info" [] err))
      | inr body =>
      read ← readOptional w (htmlFile f) "";
      match read with
      | inl err =>
          mret (handleError g (ErrorfW
            "failed to read HTML file: %w. Use --help for usage info" [] err))
      | inr htmlBody =>
          if (length (to f) =? 0)%nat then
            mret (handleError g (Errorf
              "at least one recipient (--to) is required. Use --help for usage info" []))
          else if isEmpty (subject f) then
            mret (handleError g (Errorf "subject is required. Use --help for usage info" []))
          else if isEmpty body && isEmpty htmlBody then
            mret (handleError g (Errorf
              "either --body or --html-file must be provided. Use --help for usage info" []))
          else if Z.of_nat (length (attachments f)) >? maxAttachments then
            mret (handleError g (Errorf
              "too many attachments: maximum is %d (you have %d). Use --help for usage info"
              [AInt maxAttachments; AInt (Z.of_nat (length (attachments f)))]))
          else
            bad ← checkAttachments w (attachments f);
            match bad with
            | Some err => mret (handleError g err)
            | None =>
                let opts := [email.WithCC (cc f); email.WithBCC (bcc f);
                             email.WithAttachments (attachments f)] in
                let opts := if negb (isEmpty htmlBody)
                            then opts ++ [email.WithHTMLBody htmlBody] else opts in
                let opts := if negb (isEmpty (inReplyTo f))
                            then opts ++ [email.WithInReplyTo (inReplyTo f)] else opts in
                err ← email.Send (email.NewSender (SMTP cfg)) w (to f) (subject f) body opts;
                match err with
                | Some err => mret (handleError g err)
                | None => mret ReturnsNil
                end
            end
      end
      end
  end.

End send.

(** [truncate] truncates a string to max length.  The slice
    [s[:maxLen-3]] panics when [maxLen - 3] is negative; it cannot exceed
    the string, which is longer than [maxLen] where the slice is taken. *)
Definition truncate (s : string) (maxLen : Z) : outcome string :=
  if len s <=? maxLen then Returns s
  else if maxLen - 3 <? 0 then Panics "runtime error: slice bounds out of range"
  else Returns (slice s 0 (maxLen - 3) +:+ "...").

(** [maskPassword] of the config check. *)
Definition maskPassword (s : string) : string :=
  if isEmpty s then ""
  else if len s <=? 4 then "****"
  else slice s 0 2 +:+ "****" +:+ slice s (len s - 2) (len s).

(** [output.JSONOutput.Print]: [marshalled] is what [json.MarshalIndent]
    returned for the response, [None] when it succeeded. *)
Definition Print (marshalled : option error) : cmdResult :=
  match marshalled with
  | Some err => ReturnsErr (ErrorfW "failed to marshal JSON: %w" [] err)
  | None => ReturnsNil
  end.

(** [cfg.IMAP.Mailbox = mailbox] when the flag is given. *)
Definition withMailbox (mailbox : string) (imap : IMAPConfig) : IMAPConfig :=
  if negb (isEmpty mailbox) then
    mkIMAPConfig (imapHost imap) (imapPort imap) (imapUsername imap)
      (imapPassword imap) (imapUseTLS imap) mailbox
  else imap.

Module read.

Record flags : Type := mkFlags {
  uid : N;
  mailbox : string;
  raw : bool
}.

(** [RunE] of the read command; [cfg] is what [config.Load()] returned
    and [marshalled] what marshalling the response gives under [--json].
    What is printed is left out. *)
Definition run (f : flags) (g : globals) (cfg : Config) (w : world)
    (marshalled : option error) : io cmdResult :=
  if (uid f =? 0)%N then
    mret (handleError g (Errorf "UID is required (use --uid). Use --help for usage info" []))
  else
    match ValidateIMAP cfg with
    | Some err => mret (handleError g (ErrorfW "%w. Use --help for usage info" [] err))
    | None =>
        let imap := withMailbox (mailbox f) (IMAP cfg) in
        msg ← email.ReadMessage (email.NewReader imap) w (uid f);
        match msg with
        | inl err => mret (handleError g (ErrorfW "%w. Use --help for usage info" [] err))
        | inr _ => if jsonOutput g then mret (Print marshalled) else mret ReturnsNil
        end
    end.

End read.

Module inbox.

Record flags : Type := mkFlags {
  limit : Z;
  unreadOnly : bool;
  mailbox : string
}.

(** The two cells of a table row that are cut to a width. *)
Definition rowCells (msg : Message) : outcome (string * string) :=
  from ← truncate (msgFrom msg) 25;
  subject ← truncate (Subject msg) 40;
  Returns (from, subject).

Fixpoint rows (messages : list Message) : outcome (list (string * string)) :=
  match messages with
  | [] => Returns []
  | msg :: rest =>
      cells ← rowCells msg;
      others ← rows rest;
      Returns (cells :: others)
  end.

(** [RunE] of the inbox command; [cfg] is what [config.Load()] returned
    and [marshalled] what marshalling the response gives under [--json].
    Of the table only the cells that are cut to a width are computed;
    what is printed is left out. *)
Definition run (f : flags) (g : globals) (cfg : Config) (w : world)
    (marshalled : option error) : io cmdResult :=
  match ValidateIMAP cfg with
  | Some err => mret (handleError g (ErrorfW "%w. Use --help for usage info" [] err))
  | None =>
      let imap := withMailbox (mailbox f) (IMAP cfg) in
      messages ← email.ListMessages (email.NewReader imap) w (limit f) (unreadOnly f);
      match messages with
      | inl err => mret (handleError g (ErrorfW "%w. Use --help for usage info" [] err))
      | inr messages =>
          if jsonOutput g then mret (Print marshalled)
          else if (length messages =? 0)%nat then mret ReturnsNil
          else
            _ ← local (rows messages);
            mret ReturnsNil
      end
  end.

End inbox.

End cli.

(** * The statements' vocabulary *)

Module props.
Import strings errors run regexp config lib emailtypes email.

(** [sep] occurs nowhere in [s]. *)
Fixpoint free (sep : ascii) (s : string) : bool :=
  match s with
  | EmptyString => true
  | String c s' => negb (Ascii.eqb c sep) && free sep s'
  end.

(** The quoted reply as it is described: the reply body and a blank
    line, unless the reply body is empty; the attribution line; every
    line of the original body behind ["> "], each on a line of its own. *)
Definition replyPrefix (replyBody : string) : string :=
  if isEmpty replyBody then "" else replyBody +:+ NL +:+ NL.

Definition attribution (date from : string) : string :=
  "On " +:+ date +:+ ", " +:+ from +:+ " wrote:".

Definition quoted (line : string) : string := "> " +:+ line.

Definition quotedBlock (lines : list string) : string :=
  fold_right (fun line acc => (quoted line +:+ NL) +:+ acc) "" lines.

Definition quotedReplyText (replyBody originalBody from date : string) : string :=
  replyPrefix replyBody +:+ attribution date from +:+ NL
    +:+ quotedBlock (Split nl originalBody).

(** The loop invariant of [createPreview]: the text joined so far fits, and [currentLen]
    is its length plus one for the blank that would come next. *)
Definition fits (preview : list string) (currentLen maxLen : Z) : Prop :=
  len (Join preview " ") <= maxLen
  /\ currentLen = match preview with
                  | [] => 0
                  | _ :: _ => len (Join preview " ") + 1
                  end.

(** What the attachment limits refuse: more than five paths, a file
    that cannot be accessed, or a file of more than 10 MiB. *)
Definition overLimits (w : world) (atts : list string) : Prop :=
  5 < Z.of_nat (length atts)
  \/ exists att : string,
       att ∈ atts
       /\ ((exists err, stat w att = inl err)
           \/ (exists size, stat w att = inr size /\ 10 * 1024 * 1024 < size)).

(** The UID sets asked for in the fetches of a run. *)
Definition fetchRequests (t : list call) : list (list N) :=
  omap (fun c => match c with UidFetch uids _ => Some uids | _ => None end) t.

(** The last [n] of a list of UIDs. *)
Definition lastUids (n : nat) (uids : list N) : list N :=
  rev (firstn n (rev uids)).

(** What a listing with [limit] is to ask for: the last [limit] UIDs
    when the limit is positive and the search gave more, all of them
    otherwise. *)
Definition requested (limit : Z) (uids : list N) : list N :=
  if (0 <? limit) && (limit <? Z.of_nat (length uids))
  then lastUids (Z.to_nat limit) uids
  else uids.

(** The contents of the inline parts whose media type starts with
    [kind], in the order of the message; parts that failed to parse and
    attachments do not count. *)
Definition inlineContents (kind : string) (ps : list part) : list string :=
  omap (fun p => match p with
                 | InlinePart contentType data =>
                     if HasPrefix contentType kind then Some data else None
                 | _ => None
                 end) ps.

(** The content of the last such part, [""] when there is none. *)
Definition lastInline (kind : string) (mr : mailReader) : string :=
  List.last (inlineContents kind (NextParts mr)) "".

(** The Message-ID as [extractBody] reads it from the header. *)
Definition messageIdOf (mr : mailReader) : string :=
  if isEmpty (HeaderGet mr "Message-Id") then HeaderGet mr "Message-ID"
  else HeaderGet mr "Message-Id".

(** An operation surfaces the failure [cause] of a library call: it
    returns the error [e], which wraps [cause], after having made
    exactly the calls [made]. *)
Definition surfaces {A : Type} (op : io (error + A)) (cause e : error)
    (made : list call) : Prop :=
  result op = Returns (inl e) /\ Wraps cause e /\ calls op = made.

(** The same for [Send], which returns just an error. *)
Definition surfacesSend (op : io (option error)) (cause e : error)
    (made : list call) : Prop :=
  result op = Returns (Some e) /\ Wraps cause e /\ calls op = made.

(** The calls of a connection that succeeds. *)
Definition connected (r : Reader) : list call :=
  [Dial (imapUseTLS (rconfig r)) (imapHost (rconfig r)) (imapPort (rconfig r));
   Login (imapUsername (rconfig r)) (imapPassword (rconfig r))].

Definition listItems : list FetchItem :=
  [FetchUid; FetchEnvelope; FetchFlags; FetchRFC822Size].

Definition readItems : list FetchItem :=
  [FetchUid; FetchEnvelope; FetchFlags; FetchRFC822Size; FetchBody; FetchBodySection].

(** [addr] is one of the user's own addresses, as the reply command
    tests it. *)
Definition ownAddress (smtp : SMTPConfig) (addr : string) : bool :=
  cli.isSelf addr (From smtp) (smtpUsername smtp).

(** The messages handed to the SMTP library in a run. *)
Definition sentMessages (t : list call) : list gomailMessage :=
  omap (fun c => match c with DialAndSend _ m => Some m | _ => None end) t.

(** The header field [field] of a message; absent fields have no values. *)
Definition headerValues (m : gomailMessage) (field : string) : list string :=
  default [] (header m !! field).

(** Everyone a message is addressed to in its To and Cc fields. *)
Definition recipients (m : gomailMessage) : list string :=
  headerValues m "To" ++ headerValues m "Cc".

(** The text of a reply as the reply command takes it: the content of
    the body file when one is named, the [--body] flag otherwise. *)
Definition replyText (f : cli.reply.flags) (w : world) : error + string :=
  if isEmpty (cli.reply.bodyFile f) then inr (cli.reply.body f)
  else readFile w (cli.reply.bodyFile f).

(** The body of the reply that is sent: the text alone under
    [--no-quote], the text with the quoted original otherwise. *)
Definition replyBodyOf (f : cli.reply.flags) (w : world) (text : string)
    (original : Message) : string :=
  if cli.reply.noQuote f then text
  else FormatQuotedReply text (Body original) (msgFrom original)
         (Format w (Date original) "2006-01-02 15:04").

(** The address [Send] puts into the From field. *)
Definition senderAddress (c : SMTPConfig) : string :=
  if isEmpty (From c) then smtpUsername c else From c.

(** [values] as a header field: a field is set only for a non-empty list. *)
Definition fieldOf (values : list string) : option (list string) :=
  match values with
  | [] => None
  | _ :: _ => Some values
  end.

(** The body parts [Send] gives a message: the HTML body first, with the
    plain text as its alternative, or the plain text alone. *)
Definition bodyPartsOf (body html : string) : list (string * string) :=
  if isEmpty html then [("text/plain", body)]
  else if isEmpty body then [("text/html", html)]
  else [("text/html", html); ("text/plain", body)].

(** The message the reply command builds for [text] and [original]. *)
Definition replyMessage (f : cli.reply.flags) (cfg : Config) (w : world)
    (text : string) (original : Message) : gomailMessage :=
  buildMessage (NewSender (SMTP cfg)) [msgFrom original]
    (cli.reply.buildSubject original) (replyBodyOf f w text original)
    (applyOptions
       (cli.reply.buildOptions
          (cli.reply.buildCC (cli.reply.all f) (SMTP cfg) original) original)).

(** The bare address of an IMAP address, [mailbox@host]. *)
Definition bareAddress (a : Address) : string :=
  MailboxName a +:+ "@" +:+ HostName a.

(** The calls made within a session: selecting, searching, fetching. *)
Definition sessionCall (c : call) : bool :=
  match c with
  | Select _ _ | UidSearch _ | UidFetch _ _ => true
  | _ => false
  end.

(** A message without body, preview and Message-ID. *)
Definition bodiless (m : Message) : Prop :=
  Body m = "" /\ BodyPreview m = "" /\ MessageID m = "".

(** The lines of a body that count for its preview: trimmed, blank
    ones left out. *)
Definition previewLines (body : string) : list string :=
  List.filter (fun line => negb (isEmpty line)) (map TrimSpace (Split nl body)).

(** The bytes of some lines, counting one more for each. *)
Definition weight (lines : list string) : Z :=
  fold_right (fun line total => len line + 1 + total) 0 lines.

(** Reading a quoted block back: the first two bytes of every line are
    dropped. *)
Definition unquote (block : string) : string :=
  Join (map (drop 2) (Split nl block)) NL.

(** What stands in a quoted reply before the quoted lines. *)
Definition replyHead (replyBody from date : string) : string :=
  replyPrefix replyBody +:+ attribution date from +:+ NL.

(** The text of a message as the send command takes it: the content
    of the body file when one is named, the [--body] flag otherwise. *)
Definition sendText (f : cli.send.flags) (w : world) : error + string :=
  if isEmpty (cli.send.bodyFile f) then inr (cli.send.body f)
  else readFile w (cli.send.bodyFile f).

(** Its HTML body: the content of the HTML file when one is named. *)
Definition sendHtml (f : cli.send.flags) (w : world) : error + string :=
  if isEmpty (cli.send.htmlFile f) then inr "" else readFile w (cli.send.htmlFile f).

(** The mailbox a command is to open: the [--mailbox] flag when given,
    else the environment's mailbox when set, else ["INBOX"]. *)
Definition chosenMailbox (flag : string) (env : environment) : string :=
  if isEmpty flag then
    if isEmpty (env "GHOSTMAIL_IMAP_MAILBOX") then "INBOX" else env "GHOSTMAIL_IMAP_MAILBOX"
  else flag.

(** One of the three settings a server needs is missing from the
    environment. *)
Definition lacksSetting (env : environment) (host username password : string) : Prop :=
  env host = "" \/ env username = "" \/ env password = "".

(** [extractBody] returns for the body of [m], when [m] has one. *)
Definition extractable (m : imapMessage) : Prop :=
  forall source : sectionData,
    GetBody m = Some source -> exists v, extractBody source = Returns v.

(** A message with the body and the Message-ID that [extractBody] gave,
    and the preview of that body. *)
Definition withBody (m : Message) (body messageID : string) : Message :=
  mkMessage (UID m) (msgSeqNum m) messageID (Subject m) (msgFrom m) (To m) (CC m)
    (BCC m) (Date m) body (createPreview body 200) (msgFlags m).

(** Every byte of [s] is an ASCII byte (below 128). *)
Fixpoint isASCII (s : string) : bool :=
  match s with
  | EmptyString => true
  | String c s' => (nat_of_ascii c <? 128)%nat && isASCII s'
  end.

(** A message with another subject. *)
Definition withSubject (subject : string) (m : Message) : Message :=
  mkMessage (UID m) (msgSeqNum m) (MessageID m) subject (msgFrom m) (To m) (CC m)
    (BCC m) (Date m) (Body m) (BodyPreview m) (msgFlags m).

End props.

(** * Sample runs *)

Module samples.
Import strings errors run regexp config lib emailtypes email cli.

Definition me : Config :=
  mkConfig
    (mkSMTPConfig "smtp.example.com" 587 "me@example.com" "secret" false true
       "me@example.com")
    (mkIMAPConfig "imap.example.com" 993 "me@example.com" "secret" true "INBOX").

Definition plain : globals := mkGlobals false false false.
Definition json : globals := mkGlobals true false false.

Definition address (name mbox host : string) : option Address :=
  Some (mkAddress name mbox host).

(** A server that holds the given messages and answers every call
    without error; no file exists. *)
Definition serving (msgs : list imapMessage) : world :=
  mkWorld None None (inr (N.of_nat (length msgs)))
    (fun _ => inr (map Uid msgs))
    (fun uids => (filter (fun m => bool_decide (Uid m ∈ uids)) msgs, None))
    (fun _ => None)
    (fun _ => inl (Lib "no such file or directory"))
    (fun _ => inl (Lib "no such file or directory"))
    (fun _ _ => "2024-01-15 10:30").

(** Bob writes to me and puts himself and, twice, Carol in copy. *)
Definition lunch : imapMessage :=
  mkImapMessage 1 7 []
    (Some (mkEnvelope 0 "Lunch"
             [address "Bob" "bob" "example.com"]
             [address "" "me" "example.com"]
             [address "Bob" "bob" "example.com";
              address "" "carol" "example.com";
              address "" "carol" "example.com"]
             []))
    None.

Definition replyAllToLunch : io cmdResult :=
  reply.run (reply.mkFlags 7 "" "ok" "" true false) plain me (serving [lunch]).

(** A plain-text invitation that carries a Message-ID. *)
Definition invitationSource : sectionData :=
  mkSectionData
    (inr (mkMailReader
            (fun name => if String.eqb (ToLower name) "message-id"
                         then "<inv-1@example.com>" else "")
            [InlinePart "text/plain" "See you at noon"] EndOfFile))
    (inr "").

Definition invitation : imapMessage :=
  mkImapMessage 1 9 []
    (Some (mkEnvelope 0 "Invitation"
             [address "Bob" "bob" "example.com"]
             [address "" "me" "example.com"] [] []))
    (Some invitationSource).

Definition acceptInvitation : io cmdResult :=
  reply.run (reply.mkFlags 9 "" "Fine" "" false false) plain me (serving [invitation]).

Definition acceptance : gomailMessage :=
  hd NewMessage (props.sentMessages (calls acceptInvitation)).

Definition note (uid : N) : imapMessage :=
  mkImapMessage uid uid [] None None.

Definition threeNotes : world := serving [note 3; note 5; note 8].

(** A message whose first text/plain part has content and whose
    second text/plain part is empty; it has no other part. *)
Definition twoPlainParts : sectionData :=
  mkSectionData
    (inr (mkMailReader (fun _ => "")
            [InlinePart "text/plain" "hello"; InlinePart "text/plain" ""] EndOfFile))
    (inr "").

(** The same two parts with an HTML part behind them. *)
Definition plainPartsAndHtml : sectionData :=
  mkSectionData
    (inr (mkMailReader (fun _ => "")
            [InlinePart "text/plain" "hello"; InlinePart "text/plain" "";
             InlinePart "text/html" "<b>x</b>"] EndOfFile))
    (inr "").

(** A message whose body section is no well-formed mail: the MIME
    reader refuses its header, and the bytes behind it can be read. *)
Definition garbled : imapMessage :=
  mkImapMessage 1 4 []
    (Some (mkEnvelope 0 "Broken"
             [address "Bob" "bob" "example.com"]
             [address "" "me" "example.com"] [] []))
    (Some (mkSectionData (inl (Lib "malformed MIME header line"))
                         (inr "see you at noon"))).

(** A server on which the fetch, having delivered its messages, fails. *)
Definition failingFetch (msgs : list imapMessage) : world :=
  mkWorld None None (inr (N.of_nat (length msgs)))
    (fun _ => inr (map Uid msgs))
    (fun uids => (filter (fun m => bool_decide (Uid m ∈ uids)) msgs,
                  Some (Lib "connection reset by peer")))
    (fun _ => Some (Lib "550 mailbox unavailable"))
    (fun _ => inl (Lib "no such file or directory"))
    (fun _ => inl (Lib "no such file or directory"))
    (fun _ _ => "2024-01-15 10:30").

(** Six attachments, one more than allowed. *)
Definition sixFiles : send.flags :=
  send.mkFlags ["bob@example.com"] [] [] "Files" "see attached" "" ""
    ["a.pdf"; "b.pdf"; "c.pdf"; "d.pdf"; "e.pdf"; "f.pdf"] "".

Definition sendSixFiles (g : globals) : io cmdResult :=
  send.run sixFiles g me (serving []).

(** Bob writes to me and to Dave and puts Carol in copy. *)
Definition party : imapMessage :=
  mkImapMessage 1 12 []
    (Some (mkEnvelope 0 "Party"
             [address "Bob" "bob" "example.com"]
             [address "" "me" "example.com"; address "" "dave" "example.com"]
             [address "" "carol" "example.com"]
             []))
    (Some invitationSource).

Definition replyAllToParty : io cmdResult :=
  reply.run (reply.mkFlags 12 "" "Coming" "" true false) plain me (serving [party]).

Definition partyReply : gomailMessage :=
  hd NewMessage (props.sentMessages (calls replyAllToParty)).

(** A message whose body is HTML only. *)
Definition newsletter : imapMessage :=
  mkImapMessage 1 15 []
    (Some (mkEnvelope 0 "News"
             [address "Shop" "news" "example.com"]
             [address "" "me" "example.com"] [] []))
    (Some (mkSectionData
             (inr (mkMailReader (fun _ => "") [InlinePart "text/html" "<p>Sale!</p>"]
                     EndOfFile))
             (inr ""))).

(** A multipart message that is cut before its closing boundary: after
    its one part the listing of the parts fails at every call. *)
Definition cutShort : imapMessage :=
  mkImapMessage 1 16 []
    (Some (mkEnvelope 0 "Cut"
             [address "Bob" "bob" "example.com"]
             [address "" "me" "example.com"] [] []))
    (Some (mkSectionData
             (inr (mkMailReader (fun _ => "") [InlinePart "text/plain" "Dear all,"]
                     (ErrorForEver (Lib "multipart: NextPart: EOF"))))
             (inr ""))).

(** An environment with the IMAP settings only. *)
Definition imapOnly : environment := fun key =>
  if String.eqb key "GHOSTMAIL_IMAP_HOST" then "imap.example.com"
  else if String.eqb key "GHOSTMAIL_IMAP_USERNAME" then "me@example.com"
  else if String.eqb key "GHOSTMAIL_IMAP_PASSWORD" then "secret"
  else "".

(** A message to Bob with Carol in copy, an HTML body beside the text
    and one attachment. *)
Definition greeting : send.flags :=
  send.mkFlags ["bob@example.com"] ["carol@example.com"] [] "Hello" "Hi Bob" ""
    "hello.html" ["card.pdf"] "".

(** A machine on which the two files exist. *)
Definition withFiles : world :=
  mkWorld None None (inr 0%N) (fun _ => inr []) (fun _ => ([], None)) (fun _ => None)
    (fun _ => inr 2048) (fun _ => inr "<p>Hi Bob</p>") (fun _ _ => "2024-01-15 10:30").

Definition sendGreeting : io cmdResult := send.run greeting plain me withFiles.

Definition greetingMessage : gomailMessage :=
  hd NewMessage (props.sentMessages (calls sendGreeting)).

(** The message [lunch] as the reader converts it. *)
Definition lunchMessage : Message := convertMessage lunch true.

End samples.

(** * Properties *)

Import strings errors run regexp config lib emailtypes email props.

#[local] Arguments String.append !s1 s2 : simpl nomatch.
#[local] Arguments Ascii.eqb : simpl never.
#[local] Arguments strings.isSpace : simpl never.
#[local] Arguments regexp.isSpace : simpl never.
#[local] Arguments lowerByte : simpl never.

(** ** Strings *)

Section StringFacts.

Lemma string_app_assoc (a b c : string) : (a +:+ b) +:+ c = a +:+ (b +:+ c).
Proof. induction a as [|x a IH]; simpl; [reflexivity | now rewrite IH]. Qed.

Lemma string_app_nil_r (a : string) : a +:+ "" = a.
Proof. induction a as [|x a IH]; simpl; [reflexivity | now rewrite IH]. Qed.

Lemma string_length_app (a b : string) :
  String.length (a +:+ b) = (String.length a + String.length b)%nat.
Proof. induction a as [|x a IH]; simpl; [reflexivity | now rewrite IH]. Qed.

Lemma len_app (a b : string) : len (a +:+ b) = len a + len b.
Proof. unfold len. rewrite string_length_app. lia. Qed.

Lemma len_nonneg (a : string) : 0 <= len a.
Proof. unfold len. lia. Qed.

Lemma isEmpty_true (s : string) : isEmpty s = true <-> s = "".
Proof. destruct s; simpl; split; congruence. Qed.

Lemma isEmpty_false_len (s : string) : isEmpty s = false -> 0 < len s.
Proof. destruct s; simpl; [congruence | unfold len; simpl; lia]. Qed.

Lemma Split_not_nil sep s : Split sep s <> [].
Proof.
  induction s as [|c s IH]; simpl; [discriminate|].
  destruct (Ascii.eqb c sep); [discriminate|].
  destruct (Split sep s); [contradiction | discriminate].
Qed.

Lemma Split_free sep s : Forall (fun piece => free sep piece = true) (Split sep s).
Proof.
  induction s as [|c s IH]; simpl.
  - repeat constructor.
  - destruct (Ascii.eqb c sep) eqn:E.
    + constructor; [reflexivity | exact IH].
    + destruct (Split sep s) as [|l ls]; [repeat constructor; simpl; now rewrite E|].
      inversion IH; subst. constructor; [simpl; rewrite E; assumption | assumption].
Qed.

(** Joining the pieces with the separator gives the string back. *)
Lemma Join_Split sep s : Join (Split sep s) (String sep "") = s.
Proof.
  induction s as [|c s IH]; simpl; [reflexivity|].
  destruct (Ascii.eqb c sep) eqn:E.
  - apply Ascii.eqb_eq in E. subst c.
    pose proof (Split_not_nil sep s) as Hne.
    destruct (Split sep s) as [|l ls]; [contradiction|].
    simpl in *. now rewrite IH.
  - destruct (Split sep s) as [|l ls]; simpl in *; [now subst|].
    destruct ls; simpl in *; now rewrite <- IH.
Qed.

Lemma TrimRightFunc_cons_keep f c s :
  f c = false -> TrimRightFunc f (String c s) = String c (TrimRightFunc f s).
Proof. intros H. simpl. rewrite H. now rewrite andb_false_r. Qed.

Lemma TrimRightFunc_app_keep f a b :
  isEmpty (TrimRightFunc f b) = false ->
  TrimRightFunc f (a +:+ b) = a +:+ TrimRightFunc f b.
Proof.
  intros H. induction a as [|x a IH]; simpl; [reflexivity|].
  rewrite IH.
  assert (isEmpty (a +:+ TrimRightFunc f b) = false) as ->
    by (destruct a; simpl; [assumption | reflexivity]).
  reflexivity.
Qed.

(** [LastIndex] is -1 or an index into the string, so the slice that
    [isSelf] takes between the last ["<"] and a later last [">"] is
    within the string. *)
Lemma LastIndex_bound (s : string) (sep : ascii) :
  -1 <= LastIndex s sep < len s.
Proof.
  induction s as [|c s IH]; [unfold len; simpl; lia|].
  cbn [LastIndex]. unfold len in *. cbn [String.length].
  destruct (0 <=? LastIndex s sep) eqn:E.
  - apply Z.leb_le in E. lia.
  - destruct (Ascii.eqb c sep); lia.
Qed.

(** A line that holds no line feed, followed by one: trimming removes
    exactly that one. *)
Lemma TrimRight_line (line : string) :
  free nl line = true -> TrimRight (line +:+ NL) nl = TrimRight line nl.
Proof.
  unfold TrimRight. induction line as [|c l IH]; simpl; [reflexivity|].
  intros H. apply andb_prop in H as [Hc Hl]. rewrite (IH Hl). reflexivity.
Qed.

Lemma TrimRight_free (line : string) :
  free nl line = true -> TrimRight line nl = line.
Proof.
  unfold TrimRight. induction line as [|c l IH]; simpl; [reflexivity|].
  intros H. apply andb_prop in H as [Hc Hl]. rewrite (IH Hl).
  destruct (Ascii.eqb_spec nl c) as [<-|_];
    [rewrite Ascii.eqb_refl in Hc; discriminate|].
  now rewrite andb_false_r.
Qed.

End StringFacts.

(** ** The quoted reply *)

Section QuotedReply.

Lemma quoteLines_block (result : string) (lines : list string) :
  quoteLines result lines = result +:+ quotedBlock lines.
Proof.
  revert result. induction lines as [|l ls IH]; intros result; simpl.
  - now rewrite string_app_nil_r.
  - rewrite IH. unfold quoted. now rewrite !string_app_assoc.
Qed.

Lemma quoted_free (line : string) : free nl line = true -> free nl (quoted line) = true.
Proof. intros H. unfold quoted. simpl. exact H. Qed.

(** Trimming a block of quoted lines removes the line feed of the last
    line and nothing else. *)
Lemma TrimRight_block (before : string) (lines : list string) :
  lines <> [] ->
  Forall (fun l => free nl l = true) lines ->
  TrimRight (before +:+ quotedBlock lines) nl = before +:+ Join (map quoted lines) NL.
Proof.
  revert before. induction lines as [|l ls IH]; intros before Hne Hfree; [contradiction|].
  inversion Hfree as [|? ? Hl Hls]; subst.
  destruct ls as [|l2 rest].
  - change (quotedBlock [l]) with ((quoted l +:+ NL) +:+ "").
    change (Join (map quoted [l]) NL) with (quoted l).
    rewrite string_app_nil_r. unfold TrimRight.
    assert (Hq : TrimRight (quoted l +:+ NL) nl = quoted l)
      by (rewrite TrimRight_line, TrimRight_free; auto using quoted_free).
    unfold TrimRight in Hq.
    rewrite TrimRightFunc_app_keep; rewrite Hq; reflexivity.
  - change (quotedBlock (l :: l2 :: rest))
      with ((quoted l +:+ NL) +:+ quotedBlock (l2 :: rest)).
    rewrite <- string_app_assoc. rewrite IH; [|discriminate|assumption].
    change (Join (map quoted (l :: l2 :: rest)) NL)
      with (quoted l +:+ NL +:+ Join (map quoted (l2 :: rest)) NL).
    now rewrite !string_app_assoc.
Qed.

(** C6. [FormatQuotedReply] gives the reply body and one blank line
    (left out when the reply body is empty), the attribution line
    ["On <date>, <from> wrote:"], and every line of the original body
    (split at line feeds) behind ["> "] on a line of its own, with the
    trailing line feeds trimmed; what the trimming removes is the line
    feed of the last quoted line, so the quoted lines end up joined by
    single line feeds. *)
Theorem FormatQuotedReply_format (replyBody originalBody from date : string) :
  FormatQuotedReply replyBody originalBody from date
    = TrimRight (quotedReplyText replyBody originalBody from date) nl
  /\ FormatQuotedReply replyBody originalBody from date
    = replyPrefix replyBody +:+ attribution date from +:+ NL
        +:+ Join (map quoted (Split nl originalBody)) NL.
Proof.
  assert (Hdef : FormatQuotedReply replyBody originalBody from date
                 = TrimRight (quotedReplyText replyBody originalBody from date) nl).
  { unfold FormatQuotedReply, quotedReplyText, replyPrefix, attribution.
    rewrite quoteLines_block.
    destruct replyBody; simpl isEmpty; cbv iota; simpl negb; cbv iota;
      rewrite ?string_app_assoc; reflexivity. }
  split; [exact Hdef|].
  rewrite Hdef. unfold quotedReplyText.
  rewrite <- !string_app_assoc.
  rewrite TrimRight_block; [reflexivity | apply Split_not_nil | apply Split_free].
Qed.

End QuotedReply.

(** ** The body preview *)

Section Preview.

Lemma substring_length_le (n : nat) (s : string) :
  (String.length (String.substring 0 n s) <= n)%nat.
Proof.
  revert s. induction n as [|n IH]; intros [|c s]; simpl; try lia.
  specialize (IH s). lia.
Qed.

Lemma Join_snoc (p : list string) (x sep : string) :
  Join (p ++ [x]) sep
  = match p with
    | [] => x
    | _ :: _ => Join p sep +:+ sep +:+ x
    end.
Proof.
  induction p as [|y p IH]; [reflexivity|].
  destruct p as [|z p]; [reflexivity|].
  change (Join ((y :: z :: p) ++ [x]) sep)
    with (y +:+ sep +:+ Join ((z :: p) ++ [x]) sep).
  rewrite IH.
  change (Join (y :: z :: p) sep) with (y +:+ sep +:+ Join (z :: p) sep).
  now rewrite !string_app_assoc.
Qed.

Lemma previewLoop_fits (maxLen : Z) (lines preview : list string) (currentLen : Z) :
  fits preview currentLen maxLen ->
  len (Join (previewLoop lines preview currentLen maxLen) " ") <= maxLen.
Proof.
  revert preview currentLen.
  induction lines as [|line0 rest IH]; intros preview currentLen [Hfit Hcur]; simpl;
    [exact Hfit|].
  destruct (isEmpty (TrimSpace line0)) eqn:Hempty; [apply IH; split; assumption|].
  pose proof (isEmpty_false_len _ Hempty) as Hpos.
  destruct (currentLen + len (TrimSpace line0) >? maxLen) eqn:Hover.
  - destruct (maxLen - currentLen >? 0) eqn:Hrem; [|exact Hfit].
    apply Z.gtb_lt in Hrem.
    rewrite Join_snoc.
    assert (Hslice : len (slice (TrimSpace line0) 0 (maxLen - currentLen))
                     <= maxLen - currentLen).
    { unfold slice, len. rewrite Z.sub_0_r. change (Z.to_nat 0) with 0%nat.
      pose proof (substring_length_le (Z.to_nat (maxLen - currentLen)) (TrimSpace line0)).
      lia. }
    destruct preview as [|y p]; cbv beta iota in Hcur.
    + lia.
    + rewrite !len_app. change (len " ") with 1. lia.
  - apply IH. rewrite Z.gtb_ltb in Hover. apply Z.ltb_ge in Hover.
    unfold fits. rewrite Join_snoc. destruct preview as [|y p]; cbv beta iota in Hcur.
    + simpl app. split; lia.
    + rewrite !len_app. change (len " ") with 1. simpl app. split; lia.
Qed.

(** The preview that [ReadMessage] makes, with [maxLen = 200], has at
    most 203 bytes. *)
Lemma createPreview_200 (body : string) : len (createPreview body 200) <= 203.
Proof.
  unfold createPreview.
  pose proof (previewLoop_fits 200 (Split nl body) [] 0) as H.
  assert (Hfit : fits [] 0 200) by (split; [unfold len; simpl; lia | reflexivity]).
  specialize (H Hfit).
  destruct (len body >? 200); [rewrite len_app; change (len "...") with 3|]; lia.
Qed.

(** C7. For [maxLen >= 0] the preview is a text of at most [maxLen]
    bytes, followed by the three bytes ["..."] exactly when the body is
    longer than [maxLen]. *)
Theorem createPreview_bound (body : string) (maxLen : Z) :
  0 <= maxLen ->
  exists text : string,
    len text <= maxLen
    /\ createPreview body maxLen
       = text +:+ (if len body >? maxLen then "..." else "")
    /\ len (createPreview body maxLen)
       = len text + (if len body >? maxLen then 3 else 0).
Proof.
  intros Hmax. unfold createPreview.
  exists (Join (previewLoop (Split nl body) [] 0 maxLen) " ").
  split; [apply previewLoop_fits; split; [exact Hmax | reflexivity]|].
  destruct (len body >? maxLen).
  - split; [reflexivity|]. now rewrite len_app.
  - rewrite string_app_nil_r. split; [reflexivity | lia].
Qed.

Lemma createPreview_bound_witness :
  exists text : string,
    len text <= 15
    /\ createPreview ("  hello world " +:+ NL +:+ NL +:+ "second line") 15
       = text +:+ (if len ("  hello world " +:+ NL +:+ NL +:+ "second line") >? 15
                   then "..." else "")
    /\ len (createPreview ("  hello world " +:+ NL +:+ NL +:+ "second line") 15)
       = len text + (if len ("  hello world " +:+ NL +:+ NL +:+ "second line") >? 15
                     then 3 else 0).
Proof.
  apply (createPreview_bound ("  hello world " +:+ NL +:+ NL +:+ "second line") 15).
  lia.
Defined.

End Preview.

(** ** Recipients of a reply to all *)

Section ReplyAll.
Import cli cli.reply samples.

Variable smtp : SMTPConfig.
Variable original : Message.

Lemma ccFromCC_filter (cc : list string) :
  ccFromCC smtp original cc
  = cc ++ List.filter (fun addr => negb (ownAddress smtp addr)) (CC original).
Proof.
  unfold ccFromCC. revert cc.
  induction (CC original) as [|a l IH]; intros cc; simpl.
  - now rewrite app_nil_r.
  - rewrite IH. unfold ownAddress. simpl. destruct (isSelf a _ _); simpl.
    + reflexivity.
    + now rewrite <- app_assoc.
Qed.

(** No address of the user gets into the copy list. *)
Lemma buildCC_not_self (all : bool) (addr : string) :
  addr ∈ buildCC all smtp original -> ownAddress smtp addr = false.
Proof.
  unfold buildCC. destruct all; [|intros H; inversion H].
  rewrite ccFromCC_filter. simpl app.
  unfold ccFromTo.
  assert (Hstart : forall a, a ∈ List.filter (fun a => negb (ownAddress smtp a)) (CC original)
                             -> ownAddress smtp a = false).
  { intros a Ha. apply list_elem_of_In, filter_In in Ha as [_ Ha].
    now apply negb_true_iff in Ha. }
  revert Hstart. generalize (List.filter (fun a => negb (ownAddress smtp a)) (CC original)) as cc.
  induction (To original) as [|a l IH]; intros cc Hcc; simpl; [apply Hcc|].
  apply IH. unfold ownAddress in *. simpl in *.
  destruct (isSelf a (From smtp) (smtpUsername smtp)) eqn:Hs; simpl; [exact Hcc|].
  destruct (String.eqb a (msgFrom original)); simpl; [exact Hcc|].
  destruct (existsb _ cc); simpl; [exact Hcc|].
  intros b Hb. apply elem_of_app in Hb as [Hb|Hb]; [now apply Hcc|].
  apply list_elem_of_singleton in Hb as ->. exact Hs.
Qed.

(** The addresses taken over from the To list are screened: starting
    from a copy list without repetition and without the sender, the
    second loop keeps it so. *)
Lemma ccFromTo_screened (cc : list string) :
  NoDup cc -> msgFrom original ∉ cc ->
  NoDup (ccFromTo smtp original cc) /\ msgFrom original ∉ ccFromTo smtp original cc.
Proof.
  unfold ccFromTo. revert cc.
  induction (To original) as [|a l IH]; intros cc Hnd Hfrom; simpl; [now split|].
  apply IH.
  - destruct (negb _ && negb _); [|exact Hnd].
    destruct (existsb _ cc) eqn:Hex; simpl; [exact Hnd|].
    apply NoDup_app; repeat split; [exact Hnd | | apply NoDup_singleton].
    intros b Hb Hb'. apply list_elem_of_singleton in Hb' as ->.
    assert (existsb (fun existing => String.eqb existing a) cc = true) as Hcontra
      by (apply existsb_exists; exists a; split;
          [now apply list_elem_of_In | apply String.eqb_refl]).
    congruence.
  - destruct (negb (isSelf a _ _)); simpl; [|exact Hfrom].
    destruct (String.eqb a (msgFrom original)) eqn:Heq; simpl; [exact Hfrom|].
    destruct (existsb _ cc); simpl; [exact Hfrom|].
    intros Hin. apply elem_of_app in Hin as [Hin|Hin]; [now apply Hfrom|].
    apply list_elem_of_singleton in Hin. apply String.eqb_neq in Heq. congruence.
Qed.

(** When the original copy list has no repetition and does not name
    the sender, the recipients of the reply are pairwise different. *)
Lemma buildCC_NoDup_from_clean_CC :
  NoDup (CC original) -> msgFrom original ∉ CC original ->
  NoDup (msgFrom original :: buildCC true smtp original).
Proof.
  intros Hnd Hfrom. unfold buildCC. rewrite ccFromCC_filter. simpl app.
  destruct (ccFromTo_screened (List.filter (fun a => negb (ownAddress smtp a)) (CC original)))
    as [H1 H2].
  - apply NoDup_ListNoDup, List.NoDup_filter, NoDup_ListNoDup, Hnd.
  - intros Hin. apply Hfrom. apply list_elem_of_In in Hin.
    apply filter_In in Hin as [Hin _]. now apply list_elem_of_In.
  - now apply NoDup_cons.
Qed.

End ReplyAll.

(** C1. Reply to all, on a message whose copy list names the sender and
    names another address twice: the one message handed to the SMTP
    library has the sender in To and again in Cc and the other address
    twice in Cc, so its recipients are not pairwise different and its
    copy list does hold the original sender.  (The copy list is free of
    the user's own addresses, [buildCC_not_self], and repetition can only
    come from the original copy list, [buildCC_NoDup_from_clean_CC].) *)
Theorem reply_all_repeats_recipients :
  exists m : gomailMessage,
    sentMessages (calls samples.replyAllToLunch) = [m]
    /\ headerValues m "To" = ["Bob <bob@example.com>"]
    /\ headerValues m "Cc"
       = ["Bob <bob@example.com>"; "carol@example.com"; "carol@example.com"]
    /\ ~ NoDup (recipients m)
    /\ "Bob <bob@example.com>" ∈ headerValues m "Cc".
Proof.
  eexists. split; [vm_compute; reflexivity|].
  split; [vm_compute; reflexivity|].
  split; [vm_compute; reflexivity|].
  split.
  - vm_compute. intros H. apply NoDup_cons in H as [H _]. apply H. left.
  - vm_compute. left.
Qed.

(** ** Calls and results of composed computations *)

(** Unfold the plumbing of [io] and compute. *)
Ltac io_unfold :=
  repeat (unfold calls, result, mbind, io_bind, mret, io_ret, does, defer, local; simpl).

Section Io.

Lemma calls_bind {A B : Type} (m : io A) (k : A -> io B) :
  calls (m ≫= k)
  = match result m with
    | Returns a => calls m ++ calls (k a)
    | _ => calls m
    end.
Proof. unfold calls, result, mbind, io_bind. destruct (snd m); reflexivity. Qed.

Lemma result_bind {A B : Type} (m : io A) (k : A -> io B) :
  result (m ≫= k)
  = match result m with
    | Returns a => result (k a)
    | Panics msg => Panics msg
    | Hangs => Hangs
    end.
Proof. unfold calls, result, mbind, io_bind. destruct (snd m); reflexivity. Qed.

Lemma sentMessages_app (t t' : list call) :
  sentMessages (t ++ t') = sentMessages t ++ sentMessages t'.
Proof. apply omap_app. Qed.

(** The reader never dials the SMTP server. *)
Lemma Connect_sends_nothing (r : Reader) (w : world) :
  sentMessages (calls (Connect r w)) = [].
Proof. unfold Connect. io_unfold. repeat (case_match; io_unfold); reflexivity. Qed.

Lemma ReadMessage_sends_nothing (r : Reader) (w : world) (uid : N) :
  sentMessages (calls (ReadMessage r w uid)) = [].
Proof.
  unfold ReadMessage, Connect. io_unfold.
  repeat (case_match; io_unfold); reflexivity.
Qed.

Lemma ListMessages_sends_nothing (r : Reader) (w : world) (limit : Z) (unread : bool) :
  sentMessages (calls (ListMessages r w limit unread)) = [].
Proof.
  unfold ListMessages, Connect. io_unfold.
  repeat (case_match; io_unfold); reflexivity.
Qed.

End Io.

(** ** Threading headers of a reply *)

Section Threading.
Import cli cli.reply.

Lemma header_attach (atts : list string) (m : gomailMessage) :
  header (fold_left Attach atts m) = header m.
Proof. revert m. induction atts as [|a l IH]; intros m; simpl; [reflexivity | now rewrite IH]. Qed.

(** Without custom headers, the two threading fields of the message
    are decided by the options alone. *)
Lemma buildMessage_threading (s : Sender) (to : list string) (subject body : string)
    (o : sendOptions) :
  headers o = ∅ ->
  header (buildMessage s to subject body o) !! "In-Reply-To"
    = (if isEmpty (inReplyTo o) then None else Some [inReplyTo o])
  /\ header (buildMessage s to subject body o) !! "References"
    = (if (0 <? length (references o))%nat then Some (references o) else None).
Proof.
  intros Hh. unfold buildMessage. rewrite header_attach, Hh, map_fold_empty.
  destruct (isEmpty (htmlBody o)), (isEmpty body), (isEmpty (inReplyTo o)),
    (0 <? length (cc o))%nat, (0 <? length (bcc o))%nat,
    (0 <? length (references o))%nat; simpl; split; by simplify_map_eq.
Qed.

Lemma applyOptions_buildOptions (cc : list string) (original : Message) :
  headers (applyOptions (buildOptions cc original)) = ∅
  /\ inReplyTo (applyOptions (buildOptions cc original)) = MessageID original
  /\ references (applyOptions (buildOptions cc original))
     = (if isEmpty (MessageID original) then [] else [MessageID original]).
Proof.
  unfold applyOptions, buildOptions.
  destruct (0 <? length cc)%nat, (isEmpty (MessageID original)) eqn:E; simpl;
    repeat split; try reflexivity; symmetry; now apply isEmpty_true.
Qed.

Lemma sendReply_sends (f : flags) (g : globals) (cfg : Config) (w : world)
    (body : string) (original : Message) (m : gomailMessage) :
  m ∈ sentMessages (calls (sendReply f g cfg w body original)) ->
  header m !! "In-Reply-To"
    = (if isEmpty (MessageID original) then None else Some [MessageID original])
  /\ header m !! "References"
    = (if isEmpty (MessageID original) then None else Some [MessageID original]).
Proof.
  unfold sendReply, Send. io_unfold.
  destruct (dialAndSend w _); io_unfold.
  all: intros Hm; apply list_elem_of_singleton in Hm; subst m.
  all: destruct (applyOptions_buildOptions (buildCC (all f) (SMTP cfg) original) original)
         as (Hh & Hi & Hr).
  all: destruct (buildMessage_threading (NewSender (SMTP cfg)) [msgFrom original]
                   (buildSubject original)
                   (if noQuote f then body
                    else FormatQuotedReply body (Body original) (msgFrom original)
                           (Format w (Date original) "2006-01-02 15:04"))
                   _ Hh) as [H1 H2].
  all: rewrite H1, H2, Hi, Hr.
  all: destruct (isEmpty (MessageID original)); simpl; split; reflexivity.
Qed.

(** Once the original message is fetched, the reply command always hands
    one message to the SMTP library. *)
Lemma sendReply_sends_one (f : flags) (g : globals) (cfg : Config) (w : world)
    (body : string) (original : Message) :
  exists m : gomailMessage,
    sentMessages (calls (sendReply f g cfg w body original)) = [m].
Proof.
  unfold sendReply, Send. io_unfold. eexists.
  destruct (dialAndSend w _); reflexivity.
Qed.

Lemma run_sends_one (f : flags) (g : globals) (cfg : Config) (w : world)
    (original : Message) :
  uid f <> 0%N -> ValidateIMAP cfg = None -> ValidateSMTP cfg = None ->
  bodyFile f = "" -> body f <> "" ->
  result (ReadMessage (NewReader (overrideMailbox (mailbox f) (IMAP cfg))) w (uid f))
    = Returns (inr original) ->
  exists m : gomailMessage, sentMessages (calls (run f g cfg w)) = [m].
Proof.
  intros Huid Himap Hsmtp Hfile Hbody Horig. unfold run.
  apply N.eqb_neq in Huid. rewrite Huid, Himap, Hsmtp, Hfile.
  cbn [isEmpty negb]. rewrite calls_bind. cbn [result calls mret io_ret fst snd app].
  destruct (body f) as [|c b] eqn:E; [contradiction|]. cbn [isEmpty].
  rewrite calls_bind, Horig, sentMessages_app, ReadMessage_sends_nothing.
  apply sendReply_sends_one.
Qed.

(** C5. Every message the reply command hands to the SMTP library
    belongs to an original message that [ReadMessage] returned.  If the
    original has a Message-ID, the In-Reply-To field of the reply is
    exactly that Message-ID and its References field holds it (and
    nothing else); if the original's Message-ID is empty, neither
    field is set. *)
Theorem reply_threading_headers (f : flags) (g : globals) (cfg : Config) (w : world)
    (m : gomailMessage) :
  m ∈ sentMessages (calls (run f g cfg w)) ->
  exists original : Message,
    result (ReadMessage (NewReader (overrideMailbox (mailbox f) (IMAP cfg))) w (uid f))
      = Returns (inr original)
    /\ (MessageID original <> "" ->
        header m !! "In-Reply-To" = Some [MessageID original]
        /\ header m !! "References" = Some [MessageID original]
        /\ MessageID original ∈ headerValues m "References")
    /\ (MessageID original = "" ->
        header m !! "In-Reply-To" = None /\ header m !! "References" = None).
Proof.
  unfold run.
  destruct (uid f =? 0)%N; [intros H; inversion H|].
  destruct (ValidateIMAP cfg); [intros H; inversion H|].
  destruct (ValidateSMTP cfg); [intros H; inversion H|].
  rewrite calls_bind.
  set (read := if negb (isEmpty (bodyFile f)) then _ else _).
  assert (Hread : sentMessages (calls read) = [] /\ exists v, result read = Returns v).
  { subst read. destruct (negb (isEmpty (bodyFile f))); split; eauto. }
  destruct Hread as [Hnone [v Hv]]. rewrite Hv.
  rewrite sentMessages_app, Hnone. simpl app.
  destruct v as [err|body]; [intros H; inversion H|].
  destruct (isEmpty body); [intros H; inversion H|].
  rewrite calls_bind.
  destruct (result (ReadMessage _ w (uid f))) as [[err|original]|msg|] eqn:Horig.
  - rewrite sentMessages_app, ReadMessage_sends_nothing. intros H; inversion H.
  - rewrite sentMessages_app, ReadMessage_sends_nothing. simpl app.
    intros Hm. apply sendReply_sends in Hm as [H1 H2].
    exists original. split; [reflexivity|].
    unfold headerValues. rewrite H1, H2. split.
    + intros Hne. destruct (isEmpty (MessageID original)) eqn:E.
      * apply isEmpty_true in E. contradiction.
      * repeat split. simpl. apply list_elem_of_singleton. reflexivity.
    + intros ->. split; reflexivity.
  - rewrite ReadMessage_sends_nothing. intros H; inversion H.
  - rewrite ReadMessage_sends_nothing. intros H; inversion H.
Qed.

Lemma reply_threading_headers_witness :
  samples.acceptance ∈ sentMessages (calls samples.acceptInvitation)
  /\ exists original : Message,
       result (ReadMessage
                 (NewReader (overrideMailbox "" (IMAP samples.me)))
                 (samples.serving [samples.invitation]) 9%N)
         = Returns (inr original)
       /\ (MessageID original <> "" ->
           header samples.acceptance !! "In-Reply-To" = Some [MessageID original]
           /\ header samples.acceptance !! "References" = Some [MessageID original]
           /\ MessageID original ∈ headerValues samples.acceptance "References")
       /\ (MessageID original = "" ->
           header samples.acceptance !! "In-Reply-To" = None
           /\ header samples.acceptance !! "References" = None).
Proof.
  assert (H : samples.acceptance ∈ sentMessages (calls samples.acceptInvitation))
    by (vm_compute; left).
  split; [exact H|].
  exact (reply_threading_headers (mkFlags 9 "" "Fine" "" false false) samples.plain
           samples.me (samples.serving [samples.invitation]) samples.acceptance H).
Defined.

End Threading.

(** ** Attachment limits of the send command *)

Section AttachmentLimits.
Import cli cli.send.

(** The loop over the attachments sends nothing, always returns, and
    returns no error only if every file is accessible and small enough. *)
Lemma checkAttachments_spec (w : world) (atts : list string) :
  sentMessages (calls (checkAttachments w atts)) = []
  /\ exists bad : option error,
       result (checkAttachments w atts) = Returns bad
       /\ (bad = None ->
           forall att, att ∈ atts ->
             exists size, stat w att = inr size /\ size <= maxFileSize).
Proof.
  induction atts as [|att rest (IHs & bad & IHr & IHok)].
  - split; [reflexivity|]. exists None. split; [reflexivity|].
    intros _ att H. inversion H.
  - unfold calls, result in *. cbn [checkAttachments]. io_unfold.
    destruct (stat w att) as [err|size] eqn:Hstat; io_unfold.
    + split; [reflexivity|]. eexists. split; [reflexivity | discriminate].
    + destruct (size >? maxFileSize) eqn:Hsize; io_unfold.
      * split; [reflexivity|]. eexists. split; [reflexivity | discriminate].
      * split; [exact IHs|]. exists bad. split; [exact IHr|].
        intros Hnone a Ha. apply elem_of_cons in Ha as [->|Ha].
        -- exists size. split; [exact Hstat|].
           rewrite Z.gtb_ltb in Hsize. now apply Z.ltb_ge in Hsize.
        -- now apply IHok.
Qed.

Lemma readOptional_spec (w : world) (path current : string) :
  sentMessages (calls (readOptional w path current)) = []
  /\ exists v, result (readOptional w path current) = Returns v.
Proof. unfold readOptional. destruct (negb (isEmpty path)); split; eauto. Qed.

(** C9. When more than five attachment paths are given, or one of the
    files cannot be accessed or is larger than 10 MiB, the send command
    ends with an error and hands no message to the SMTP library.  The
    error is returned to the caller, except under [--json], where it is
    printed and the process exits with status 1. *)
Theorem send_attachment_limits (f : flags) (g : globals) (cfg : Config) (w : world) :
  overLimits w (attachments f) ->
  sentMessages (calls (run f g cfg w)) = []
  /\ exists err : error,
       result (run f g cfg w)
       = Returns (if jsonOutput g then Exits 1 err else ReturnsErr err).
Proof.
  intros Hover. unfold run.
  assert (Hfail : forall err : error,
            sentMessages (calls (mret (handleError g err) : io cmdResult)) = []
            /\ exists err' : error,
                 result (mret (handleError g err) : io cmdResult)
                 = Returns (if jsonOutput g then Exits 1 err' else ReturnsErr err')).
  { intros err. split; [reflexivity|]. exists err. reflexivity. }
  destruct (ValidateSMTP cfg); [apply Hfail|].
  destruct (readOptional_spec w (bodyFile f) (body f)) as [Hs1 [v1 Hv1]].
  rewrite calls_bind, result_bind, Hv1, sentMessages_app, Hs1. simpl app.
  destruct v1 as [err|body1]; [apply Hfail|].
  destruct (readOptional_spec w (htmlFile f) "") as [Hs2 [v2 Hv2]].
  rewrite calls_bind, result_bind, Hv2, sentMessages_app, Hs2. simpl app.
  destruct v2 as [err|htmlBody]; [apply Hfail|].
  destruct (length (to f) =? 0)%nat; [apply Hfail|].
  destruct (isEmpty (subject f)); [apply Hfail|].
  destruct (isEmpty body1 && isEmpty htmlBody); [apply Hfail|].
  destruct (Z.of_nat (length (attachments f)) >? maxAttachments) eqn:Hmany;
    [apply Hfail|].
  destruct (checkAttachments_spec w (attachments f)) as (Hs3 & bad & Hbad & Hok).
  rewrite calls_bind, result_bind, Hbad, sentMessages_app, Hs3. simpl app.
  destruct bad as [err|]; [apply Hfail|].
  exfalso. destruct Hover as [Hmore | (att & Hin & [[err Herr] | (size & Hsize & Hbig)])].
  - rewrite Z.gtb_ltb in Hmany. apply Z.ltb_ge in Hmany. unfold maxAttachments in Hmany. lia.
  - destruct (Hok eq_refl att Hin) as (size & Hsize & _). congruence.
  - destruct (Hok eq_refl att Hin) as (size' & Hsize' & Hle).
    unfold maxFileSize in Hle. assert (size = size') by congruence. lia.
Qed.

Lemma send_attachment_limits_witness :
  overLimits (samples.serving []) (attachments samples.sixFiles)
  /\ sentMessages (calls (run samples.sixFiles samples.plain samples.me (samples.serving [])))
     = []
  /\ exists err : error,
       result (run samples.sixFiles samples.plain samples.me (samples.serving []))
       = Returns (if jsonOutput samples.plain then Exits 1 err else ReturnsErr err).
Proof.
  assert (H : overLimits (samples.serving []) (attachments samples.sixFiles))
    by (left; vm_compute; reflexivity).
  split; [exact H|].
  exact (send_attachment_limits samples.sixFiles samples.plain samples.me
           (samples.serving []) H).
Defined.

(** Under [--json] the send command with six attachments does not
    return an error: it prints the error and exits. *)
Lemma send_json_exits_instead_of_returning :
  5 < Z.of_nat (length (attachments samples.sixFiles))
  /\ result (samples.sendSixFiles samples.json)
     = Returns (Exits 1 (Errorf
         "too many attachments: maximum is %d (you have %d). Use --help for usage info"
         [AInt 5; AInt 6]))
  /\ ~ exists err : error,
         result (samples.sendSixFiles samples.json) = Returns (ReturnsErr err).
Proof.
  split; [vm_compute; reflexivity|].
  split; [vm_compute; reflexivity|].
  intros [err H]. vm_compute in H. discriminate H.
Qed.

End AttachmentLimits.

(** ** Listing: the limit and the empty mailbox *)

Section Listing.

Lemma applyLimit_requested (limit : Z) (uids : list N) :
  applyLimit limit uids = requested limit uids.
Proof.
  unfold applyLimit, requested, lastUids.
  rewrite (Z.gtb_ltb limit 0), (Z.gtb_ltb _ limit).
  destruct ((0 <? limit) && (limit <? Z.of_nat (length uids))) eqn:E; [|reflexivity].
  apply andb_prop in E as [Hpos Hlt]. apply Z.ltb_lt in Hpos, Hlt.
  rewrite firstn_rev, rev_involutive. f_equal. lia.
Qed.

Lemma requested_length (limit : Z) (uids : list N) :
  0 < limit -> Z.of_nat (length (requested limit uids)) <= limit.
Proof.
  intros Hpos. unfold requested, lastUids.
  destruct ((0 <? limit) && (limit <? Z.of_nat (length uids))) eqn:E.
  - rewrite length_rev, length_firstn, length_rev. lia.
  - apply andb_false_iff in E as [E|E]; apply Z.ltb_ge in E; lia.
Qed.

(** C8. On a server that accepts the connection and the mailbox:
    a mailbox without messages, or a search without result, gives the
    empty list, no error and no fetch; otherwise there is exactly one
    fetch, for the last [limit] UIDs of the search result when
    [limit > 0] and the search gave more than [limit], and for all of
    them in every other case (so for at most [limit] UIDs when
    [limit > 0], and for all when [limit <= 0]). *)
Theorem ListMessages_limit (r : Reader) (w : world) (limit : Z) (unreadOnly : bool)
    (messages : N) :
  dial w = None -> login w = None -> select w = inr messages ->
  let listing := ListMessages r w limit unreadOnly in
  let criteria := if unreadOnly then [SeenFlag] else [] in
  (messages = 0%N ->
     result listing = Returns (inr []) /\ fetchRequests (calls listing) = [])
  /\ (messages <> 0%N -> uidSearch w criteria = inr [] ->
      result listing = Returns (inr []) /\ fetchRequests (calls listing) = [])
  /\ (forall uids : list N,
        messages <> 0%N -> uidSearch w criteria = inr uids -> uids <> [] ->
        fetchRequests (calls listing) = [requested limit uids]
        /\ (0 < limit -> Z.of_nat (length (requested limit uids)) <= limit)
        /\ (limit <= 0 -> requested limit uids = uids)).
Proof.
  intros Hdial Hlogin Hselect listing criteria. subst listing criteria.
  unfold ListMessages, Connect. io_unfold. rewrite Hdial. io_unfold.
  rewrite Hlogin. io_unfold. rewrite Hselect. io_unfold.
  split; [|split].
  - intros ->. io_unfold. split; reflexivity.
  - intros Hne Hsearch. apply N.eqb_neq in Hne. rewrite Hne. io_unfold.
    rewrite Hsearch. io_unfold. split; reflexivity.
  - intros uids Hne Hsearch Huids. apply N.eqb_neq in Hne. rewrite Hne. io_unfold.
    rewrite Hsearch. io_unfold.
    destruct uids as [|u us]; [contradiction|]. io_unfold.
    rewrite applyLimit_requested.
    split; [|split].
    + destruct (snd (uidFetch w _)); reflexivity.
    + apply requested_length.
    + intros Hle. unfold requested.
      destruct (0 <? limit) eqn:E; [apply Z.ltb_lt in E; lia | reflexivity].
Qed.

Lemma ListMessages_limit_witness :
  (dial samples.threeNotes = None /\ login samples.threeNotes = None
   /\ select samples.threeNotes = inr 3%N)
  /\ (3%N <> 0%N /\ uidSearch samples.threeNotes [] = inr [3%N; 5%N; 8%N]
      /\ [3%N; 5%N; 8%N] <> [])
  /\ fetchRequests
       (calls (ListMessages (NewReader (IMAP samples.me)) samples.threeNotes 2 false))
     = [requested 2 [3%N; 5%N; 8%N]]
  /\ requested 2 [3%N; 5%N; 8%N] = [5%N; 8%N].
Proof.
  assert (H1 : dial samples.threeNotes = None) by reflexivity.
  assert (H2 : login samples.threeNotes = None) by reflexivity.
  assert (H3 : select samples.threeNotes = inr 3%N) by reflexivity.
  assert (H4 : 3%N <> 0%N) by discriminate.
  assert (H5 : uidSearch samples.threeNotes [] = inr [3%N; 5%N; 8%N]) by reflexivity.
  assert (H6 : [3%N; 5%N; 8%N] <> []) by discriminate.
  split; [auto|]. split; [auto|].
  destruct (ListMessages_limit (NewReader (IMAP samples.me)) samples.threeNotes 2 false
              3%N H1 H2 H3) as (_ & _ & Hfetch).
  destruct (Hfetch [3%N; 5%N; 8%N] H4 H5 H6) as (Hreq & _ & _).
  split; [exact Hreq | reflexivity].
Defined.

End Listing.

(** ** Stripping HTML *)

Section StripHTML.

(** [stripHTML] panics whatever it is given: its first statement
    compiles an expression with the backreference [\1]. *)
Lemma stripHTML_panics (html : string) :
  stripHTML html
  = Panics ("regexp: Compile(`(?i)<(script|style)[^>]*>[\s\S]*?</\1>`): "
            +:+ "error parsing regexp: invalid escape sequence: `\1`").
Proof. reflexivity. Qed.

(** C3. [stripHTML] returns no text, with or without tags: on the
    markup [<p>Hello <b>world</b></p>], as on every other input, the
    call ends in the panic of [regexp.MustCompile] on the first
    expression of the function, before any tag is removed. *)
Theorem stripHTML_returns_no_text :
  stripHTML "<p>Hello <b>world</b></p>"
  = Panics ("regexp: Compile(`(?i)<(script|style)[^>]*>[\s\S]*?</\1>`): "
            +:+ "error parsing regexp: invalid escape sequence: `\1`")
  /\ forall html : string, ~ exists out : string, stripHTML html = Returns out.
Proof.
  split; [reflexivity|].
  intros html [out H]. rewrite stripHTML_panics in H. discriminate H.
Qed.

End StripHTML.

(** ** The body of a message *)

Section ExtractBody.

Lemma last_cons {A : Type} (x : A) (l : list A) (d : A) : List.last (x :: l) d = List.last l x.
Proof.
  revert x d. induction l as [|y l IH]; intros x d; [reflexivity|].
  change (List.last (x :: y :: l) d) with (List.last (y :: l) d).
  rewrite (IH y d), (IH y x). reflexivity.
Qed.

(** No media type starts with both [text/plain] and [text/html]. *)
Lemma plain_not_html (contentType : string) :
  HasPrefix contentType "text/plain" = true -> HasPrefix contentType "text/html" = false.
Proof.
  unfold HasPrefix. intros H. apply prefix_correct in H.
  destruct (String.prefix "text/html" contentType) eqn:E; [|reflexivity].
  apply prefix_correct in E. exfalso.
  destruct contentType as [|c0 [|c1 [|c2 [|c3 [|c4 [|c5 t]]]]]]; simpl in H, E;
    congruence.
Qed.

Lemma inlineContents_cons (kind : string) (p : part) (ps : list part) :
  inlineContents kind (p :: ps)
  = match p with
    | InlinePart contentType data =>
        if HasPrefix contentType kind then data :: inlineContents kind ps
        else inlineContents kind ps
    | _ => inlineContents kind ps
    end.
Proof.
  unfold inlineContents. cbn [omap list_omap].
  destruct p as [err|contentType data|]; try reflexivity.
  destruct (HasPrefix contentType kind); reflexivity.
Qed.

(** The loop keeps the content of the last text/plain part and of the
    last text/html part, and ends when the listing of the parts does. *)
Lemma partsLoop_last (ps : list part) (ending : listingEnd) (textBody htmlBody : string) :
  partsLoop ps ending textBody htmlBody
  = match ending with
    | EndOfFile =>
        Returns (List.last (inlineContents "text/plain" ps) textBody,
                 List.last (inlineContents "text/html" ps) htmlBody)
    | ErrorForEver _ => Hangs
    end.
Proof.
  revert textBody htmlBody.
  induction ps as [|p ps IH]; intros textBody htmlBody; [reflexivity|].
  rewrite !inlineContents_cons.
  destruct p as [err|contentType data|]; cbn [partsLoop]; try apply IH.
  destruct (HasPrefix contentType "text/plain") eqn:Hplain.
  - rewrite (plain_not_html _ Hplain), IH, last_cons. reflexivity.
  - destruct (HasPrefix contentType "text/html"); rewrite IH, ?last_cons; reflexivity.
Qed.

(** What [extractBody] does with a message whose parts are listed up to
    [io.EOF]. *)
Lemma extractBody_listed (reader : sectionData) (mr : mailReader) :
  CreateReader reader = inr mr -> PartsEnd mr = EndOfFile ->
  extractBody reader
  = if negb (isEmpty (lastInline "text/plain" mr)) then
      Returns (lastInline "text/plain" mr, messageIdOf mr, None)
    else if negb (isEmpty (lastInline "text/html" mr)) then
      stripped ← stripHTML (lastInline "text/html" mr);
      Returns (stripped, messageIdOf mr, None)
    else Returns ("", messageIdOf mr, None).
Proof.
  intros Hmr Hend. unfold extractBody. rewrite Hmr, partsLoop_last, Hend. reflexivity.
Qed.

(** A listing of the parts that does not end keeps [extractBody] in its
    loop. *)
Lemma extractBody_hangs (reader : sectionData) (mr : mailReader) (err : error) :
  CreateReader reader = inr mr -> PartsEnd mr = ErrorForEver err ->
  extractBody reader = Hangs.
Proof.
  intros Hmr Hend. unfold extractBody. rewrite Hmr, partsLoop_last, Hend. reflexivity.
Qed.

(** C4. For a message that [mail.CreateReader] accepts and whose parts
    are listed up to [io.EOF]: when the last text/plain inline part has
    content, [extractBody] returns that content and no error, whether
    or not there is a text/html part; when neither the last text/plain
    nor the last text/html inline part has content, it returns the
    empty string and no error.  The Message-ID comes from the header in
    both cases. *)
Theorem extractBody_prefers_plain (reader : sectionData) (mr : mailReader) :
  CreateReader reader = inr mr -> PartsEnd mr = EndOfFile ->
  let text := lastInline "text/plain" mr in
  let html := lastInline "text/html" mr in
  (text <> "" -> extractBody reader = Returns (text, messageIdOf mr, None))
  /\ (text = "" -> html = "" -> extractBody reader = Returns ("", messageIdOf mr, None)).
Proof.
  intros Hmr Hend text html. rewrite (extractBody_listed reader mr Hmr Hend).
  fold text. fold html.
  destruct text as [|c t]; destruct html as [|d h]; simpl; split;
    intros; try reflexivity; try contradiction; try discriminate.
Qed.

Lemma extractBody_prefers_plain_witness :
  CreateReader samples.invitationSource
    = inr (mkMailReader
             (fun name => if String.eqb (ToLower name) "message-id"
                          then "<inv-1@example.com>" else "")
             [InlinePart "text/plain" "See you at noon"] EndOfFile)
  /\ PartsEnd (mkMailReader
                 (fun name => if String.eqb (ToLower name) "message-id"
                              then "<inv-1@example.com>" else "")
                 [InlinePart "text/plain" "See you at noon"] EndOfFile)
     = EndOfFile
  /\ extractBody samples.invitationSource
     = Returns ("See you at noon", "<inv-1@example.com>", None).
Proof.
  split; [reflexivity|]. split; [reflexivity|].
  refine (proj1 (extractBody_prefers_plain samples.invitationSource _ eq_refl eq_refl) _).
  discriminate.
Defined.

(** A text/plain part with content does not decide the body when a
    later text/plain part is empty.  Of a message with the text/plain
    parts ["hello"] and [""] and no other part, the last text/plain part
    that has content holds ["hello"]; the body returned is empty, and so
    not the content of a text/plain part that has content.  With an HTML
    part behind the two, the body is not taken from a text/plain part
    at all: the HTML part is handed to [stripHTML]. *)
Lemma extractBody_empty_plain_part_hides_text :
  List.last (List.filter (fun content => negb (isEmpty content))
               (inlineContents "text/plain"
                  [InlinePart "text/plain" "hello"; InlinePart "text/plain" ""])) ""
    = "hello"
  /\ extractBody samples.twoPlainParts = Returns ("", "", None)
  /\ (~ exists body messageID : string,
          extractBody samples.twoPlainParts = Returns (body, messageID, None)
          /\ body ∈ inlineContents "text/plain"
                      [InlinePart "text/plain" "hello"; InlinePart "text/plain" ""]
          /\ body <> "")
  /\ extractBody samples.plainPartsAndHtml
     = (stripped ← stripHTML "<b>x</b>"; Returns (stripped, "", None))
  /\ ~ exists body messageID : string,
         extractBody samples.plainPartsAndHtml = Returns (body, messageID, None)
         /\ body ∈ inlineContents "text/plain"
                     [InlinePart "text/plain" "hello"; InlinePart "text/plain" "";
                      InlinePart "text/html" "<b>x</b>"].
Proof.
  split; [reflexivity|].
  split; [reflexivity|].
  split.
  { intros (body & messageID & H & _ & Hne). vm_compute in H.
    injection H as <- _. contradiction. }
  split; [reflexivity|].
  intros (body & messageID & H & _). vm_compute in H. discriminate H.
Qed.

End ExtractBody.

(** ** Failures of library calls *)

Section Failures.

Variable r : Reader.
Variable w : world.
Variable cause : error.

Lemma Connect_dial_fails :
  dial w = Some cause ->
  surfaces (Connect r w) cause
    (ErrorfW "failed to connect to IMAP server: %w" [] cause)
    [Dial (imapUseTLS (rconfig r)) (imapHost (rconfig r)) (imapPort (rconfig r))].
Proof.
  intros H. unfold surfaces, Connect. io_unfold. rewrite H. io_unfold.
  repeat split. repeat constructor.
Qed.

Lemma Connect_login_fails :
  dial w = None -> login w = Some cause ->
  surfaces (Connect r w) cause (ErrorfW "failed to login: %w" [] cause)
    (connected r ++ [Logout]).
Proof.
  intros H1 H2. unfold surfaces, Connect. io_unfold. rewrite H1. io_unfold.
  rewrite H2. io_unfold. repeat split. repeat constructor.
Qed.

Lemma Connect_succeeds :
  dial w = None -> login w = None ->
  result (Connect r w) = Returns (inr tt) /\ calls (Connect r w) = connected r.
Proof.
  intros H1 H2. unfold Connect. io_unfold. rewrite H1. io_unfold.
  rewrite H2. io_unfold. split; reflexivity.
Qed.

(** When the connection fails, the listing and the reading return the
    error of [Connect] as it is, and call nothing further. *)
Lemma operations_pass_Connect_failure (e : error) (made : list call) :
  surfaces (Connect r w) cause e made ->
  (forall limit unreadOnly, surfaces (ListMessages r w limit unreadOnly) cause e made)
  /\ (forall uid, surfaces (ReadMessage r w uid) cause e made).
Proof.
  intros (Hres & Hwraps & Hcalls).
  split; intros; unfold surfaces, ListMessages, ReadMessage;
    rewrite result_bind, calls_bind, Hres; cbn [calls result mret io_ret fst snd];
    rewrite app_nil_r; auto.
Qed.

Lemma ListMessages_select_fails (limit : Z) (unreadOnly : bool) :
  dial w = None -> login w = None -> select w = inl cause ->
  surfaces (ListMessages r w limit unreadOnly) cause
    (ErrorfW "failed to select mailbox: %w" [] cause)
    (connected r ++ [Select (Mailbox (rconfig r)) false; Logout]).
Proof.
  intros H1 H2 H3. unfold surfaces, ListMessages, Connect. io_unfold.
  rewrite H1. io_unfold. rewrite H2. io_unfold. rewrite H3. io_unfold.
  repeat split. repeat constructor.
Qed.

Lemma ListMessages_search_fails (limit : Z) (unreadOnly : bool) (messages : N) :
  dial w = None -> login w = None -> select w = inr messages -> messages <> 0%N ->
  uidSearch w (if unreadOnly then [SeenFlag] else []) = inl cause ->
  surfaces (ListMessages r w limit unreadOnly) cause
    (ErrorfW "failed to search messages: %w" [] cause)
    (connected r ++ [Select (Mailbox (rconfig r)) false;
                     UidSearch (if unreadOnly then [SeenFlag] else []); Logout]).
Proof.
  intros H1 H2 H3 Hne H4. unfold surfaces, ListMessages, Connect. io_unfold.
  rewrite H1. io_unfold. rewrite H2. io_unfold. rewrite H3. io_unfold.
  apply N.eqb_neq in Hne. rewrite Hne. io_unfold. rewrite H4. io_unfold.
  repeat split. repeat constructor.
Qed.

Lemma ListMessages_fetch_fails (limit : Z) (unreadOnly : bool) (messages : N)
    (uids : list N) :
  dial w = None -> login w = None -> select w = inr messages -> messages <> 0%N ->
  uidSearch w (if unreadOnly then [SeenFlag] else []) = inr uids -> uids <> [] ->
  snd (uidFetch w (applyLimit limit uids)) = Some cause ->
  surfaces (ListMessages r w limit unreadOnly) cause
    (ErrorfW "failed to fetch messages: %w" [] cause)
    (connected r ++ [Select (Mailbox (rconfig r)) false;
                     UidSearch (if unreadOnly then [SeenFlag] else []);
                     UidFetch (applyLimit limit uids) listItems; Logout]).
Proof.
  intros H1 H2 H3 Hne H4 Huids H5. unfold surfaces, ListMessages, Connect. io_unfold.
  rewrite H1. io_unfold. rewrite H2. io_unfold. rewrite H3. io_unfold.
  apply N.eqb_neq in Hne. rewrite Hne. io_unfold. rewrite H4. io_unfold.
  destruct uids as [|u us]; [contradiction|]. io_unfold. rewrite H5. io_unfold.
  repeat split. repeat constructor.
Qed.

Lemma ReadMessage_select_fails (uid : N) :
  dial w = None -> login w = None -> select w = inl cause ->
  surfaces (ReadMessage r w uid) cause
    (ErrorfW "failed to select mailbox: %w" [] cause)
    (connected r ++ [Select (Mailbox (rconfig r)) false; Logout]).
Proof.
  intros H1 H2 H3. unfold surfaces, ReadMessage, Connect. io_unfold.
  rewrite H1. io_unfold. rewrite H2. io_unfold. rewrite H3. io_unfold.
  repeat split. repeat constructor.
Qed.

(** The loop over the fetched messages returns when [extractBody]
    returns for each of them. *)
Lemma readLoop_returns (msgs : list imapMessage) (start : option Message) :
  Forall extractable msgs -> exists lastMsg, readLoop msgs start = Returns lastMsg.
Proof.
  intros Hall. revert start. induction Hall as [|msg rest Hmsg _ IH]; intros start.
  - now exists start.
  - cbn [readLoop]. unfold mbind, outcome_bind.
    destruct (GetBody msg) as [source|] eqn:Hbody; [|apply IH].
    destruct (Hmsg source Hbody) as [[[body messageID] [err|]] ->]; apply IH.
Qed.

(** The fetch of [ReadMessage] fails: the messages it delivered before
    are converted first, and when [extractBody] returns for each of
    them, the error is surfaced. *)
Lemma ReadMessage_fetch_fails (uid : N) (messages : N) :
  dial w = None -> login w = None -> select w = inr messages ->
  snd (uidFetch w [uid]) = Some cause ->
  Forall extractable (fst (uidFetch w [uid])) ->
  surfaces (ReadMessage r w uid) cause
    (ErrorfW "failed to fetch message: %w" [] cause)
    (connected r ++ [Select (Mailbox (rconfig r)) false; UidFetch [uid] readItems; Logout]).
Proof.
  intros H1 H2 H3 H4 H5. destruct (readLoop_returns _ None H5) as [lastMsg H6].
  unfold surfaces, ReadMessage, Connect. io_unfold.
  rewrite H1. io_unfold. rewrite H2. io_unfold. rewrite H3. io_unfold.
  rewrite H6. io_unfold. rewrite H4. io_unfold.
  repeat split. repeat constructor.
Qed.

Lemma Send_dial_fails (s : Sender) (to : list string) (subject body : string)
    (opts : list SendOption) :
  to <> [] ->
  dialAndSend w (buildMessage s to subject body (applyOptions opts)) = Some cause ->
  surfacesSend (Send s w to subject body opts) cause
    (ErrorfW "failed to send email: %w" [] cause)
    [DialAndSend (newDialer s) (buildMessage s to subject body (applyOptions opts))].
Proof.
  intros Hto H. unfold surfacesSend, Send.
  destruct to as [|t ts]; [contradiction|]. io_unfold. rewrite H. io_unfold.
  repeat split. repeat constructor.
Qed.

(** A body that [mail.CreateReader] refuses is read as it is: the
    message is returned with the raw bytes as its body, and no error. *)
Lemma ReadMessage_reads_raw (uid : N) (messages : N) (msg : imapMessage)
    (source : sectionData) (data : string) :
  dial w = None -> login w = None -> select w = inr messages ->
  uidFetch w [uid] = ([msg], None) ->
  GetBody msg = Some source ->
  CreateReader source = inl cause -> ReadAll source = inr data ->
  result (ReadMessage r w uid) = Returns (inr (withBody (convertMessage msg true) data ""))
  /\ calls (ReadMessage r w uid)
     = connected r ++ [Select (Mailbox (rconfig r)) false; UidFetch [uid] readItems; Logout].
Proof.
  intros H1 H2 H3 H4 H5 H6 H7. unfold ReadMessage, Connect. io_unfold.
  rewrite H1. io_unfold. rewrite H2. io_unfold. rewrite H3. io_unfold.
  rewrite H4. io_unfold. rewrite H5. io_unfold. unfold extractBody. rewrite H6, H7.
  io_unfold. split; reflexivity.
Qed.

(** Where the errors of [ReadMessage] come from: the four library calls
    it depends on, or no message delivered.  None comes from the body of
    a message. *)
Lemma ReadMessage_error_origin (uid : N) (e : error) :
  result (ReadMessage r w uid) = Returns (inl e) ->
  (exists c, dial w = Some c /\ e = ErrorfW "failed to connect to IMAP server: %w" [] c)
  \/ (exists c, login w = Some c /\ e = ErrorfW "failed to login: %w" [] c)
  \/ (exists c, select w = inl c /\ e = ErrorfW "failed to select mailbox: %w" [] c)
  \/ (exists c, snd (uidFetch w [uid]) = Some c
               /\ e = ErrorfW "failed to fetch message: %w" [] c)
  \/ e = Errorf "message not found" [].
Proof.
  unfold ReadMessage, Connect. io_unfold.
  destruct (dial w) as [c|]; io_unfold;
    [intros H; injection H as <-; left; eauto|].
  destruct (login w) as [c|]; io_unfold;
    [intros H; injection H as <-; right; left; eauto|].
  destruct (select w) as [c|n]; io_unfold;
    [intros H; injection H as <-; right; right; left; eauto|].
  destruct (readLoop _ None) as [found|msg|]; io_unfold; [|discriminate|discriminate].
  destruct (snd (uidFetch w [uid])) as [c|]; io_unfold;
    [intros H; injection H as <-; right; right; right; left; eauto|].
  destruct found; io_unfold; [discriminate|].
  intros H; injection H as <-. repeat right. reflexivity.
Qed.

End Failures.

(** C2. A failure of a library call on which an operation depends is
    surfaced: when dialing, logging in, selecting the mailbox, searching,
    fetching or sending fails, the operation returns an error that wraps
    the failure, having made every call once and none after the failed
    one except the [Logout] that closes an open connection.  [ListMessages]
    and [ReadMessage] return a failure of [Connect] unchanged.  A fetch
    that fails in [ReadMessage] is reported in this way when
    [extractBody] returns for each message delivered before the failure.
    A failure in parsing the body is the exception: when
    [mail.CreateReader] refuses the body, [ReadMessage] returns the
    message with the raw bytes as its body, and no error. *)
Theorem library_failures_surface (r : Reader) (s : Sender) (w : world) (cause : error) :
  let ok := dial w = None /\ login w = None in
  let mailbox := Select (Mailbox (rconfig r)) false in
  let criteria (unreadOnly : bool) := if unreadOnly then [SeenFlag] else [] in
  (dial w = Some cause ->
     surfaces (Connect r w) cause
       (ErrorfW "failed to connect to IMAP server: %w" [] cause)
       [Dial (imapUseTLS (rconfig r)) (imapHost (rconfig r)) (imapPort (rconfig r))])
  /\ (dial w = None -> login w = Some cause ->
      surfaces (Connect r w) cause (ErrorfW "failed to login: %w" [] cause)
        (connected r ++ [Logout]))
  /\ (forall e made, surfaces (Connect r w) cause e made ->
      (forall limit unreadOnly, surfaces (ListMessages r w limit unreadOnly) cause e made)
      /\ (forall uid, surfaces (ReadMessage r w uid) cause e made))
  /\ (ok -> select w = inl cause ->
      (forall limit unreadOnly,
         surfaces (ListMessages r w limit unreadOnly) cause
           (ErrorfW "failed to select mailbox: %w" [] cause)
           (connected r ++ [mailbox; Logout]))
      /\ (forall uid,
            surfaces (ReadMessage r w uid) cause
              (ErrorfW "failed to select mailbox: %w" [] cause)
              (connected r ++ [mailbox; Logout])))
  /\ (forall limit unreadOnly messages,
        ok -> select w = inr messages -> messages <> 0%N ->
        uidSearch w (criteria unreadOnly) = inl cause ->
        surfaces (ListMessages r w limit unreadOnly) cause
          (ErrorfW "failed to search messages: %w" [] cause)
          (connected r ++ [mailbox; UidSearch (criteria unreadOnly); Logout]))
  /\ (forall limit unreadOnly messages uids,
        ok -> select w = inr messages -> messages <> 0%N ->
        uidSearch w (criteria unreadOnly) = inr uids -> uids <> [] ->
        snd (uidFetch w (applyLimit limit uids)) = Some cause ->
        surfaces (ListMessages r w limit unreadOnly) cause
          (ErrorfW "failed to fetch messages: %w" [] cause)
          (connected r ++ [mailbox; UidSearch (criteria unreadOnly);
                           UidFetch (applyLimit limit uids) listItems; Logout]))
  /\ (forall uid messages,
        ok -> select w = inr messages ->
        snd (uidFetch w [uid]) = Some cause ->
        Forall extractable (fst (uidFetch w [uid])) ->
        surfaces (ReadMessage r w uid) cause
          (ErrorfW "failed to fetch message: %w" [] cause)
          (connected r ++ [mailbox; UidFetch [uid] readItems; Logout]))
  /\ (forall to subject body opts,
        to <> [] ->
        dialAndSend w (buildMessage s to subject body (applyOptions opts)) = Some cause ->
        surfacesSend (Send s w to subject body opts) cause
          (ErrorfW "failed to send email: %w" [] cause)
          [DialAndSend (newDialer s) (buildMessage s to subject body (applyOptions opts))])
  /\ (forall uid messages msg source data,
        ok -> select w = inr messages ->
        uidFetch w [uid] = ([msg], None) ->
        GetBody msg = Some source ->
        CreateReader source = inl cause -> ReadAll source = inr data ->
        result (ReadMessage r w uid)
          = Returns (inr (withBody (convertMessage msg true) data ""))
        /\ calls (ReadMessage r w uid)
           = connected r ++ [mailbox; UidFetch [uid] readItems; Logout]).
Proof.
  intros ok mailbox criteria. subst ok mailbox criteria. cbv beta.
  split; [apply Connect_dial_fails|].
  split; [apply Connect_login_fails|].
  split; [intros e made H; now apply operations_pass_Connect_failure|].
  split.
  { intros [H1 H2] H3. split; intros.
    - now apply ListMessages_select_fails.
    - now apply ReadMessage_select_fails. }
  split; [intros ? ? ? [H1 H2] ? ? ?; now apply (ListMessages_search_fails r w cause _ _ messages)|].
  split; [intros ? ? ? ? [H1 H2] ? ? ? ? ?;
          now apply (ListMessages_fetch_fails r w cause _ _ messages)|].
  split; [intros uid messages [H1 H2] ? ? ?;
          now apply (ReadMessage_fetch_fails r w cause uid messages)|].
  split; [intros; now apply Send_dial_fails|].
  intros ? ? ? ? ? [H1 H2] ? ? ? ? ?.
  now apply (ReadMessage_reads_raw r w cause uid messages msg source data).
Qed.

(** On a server whose fetch fails after delivering the message, reading
    surfaces the failure. *)
Lemma library_failures_surface_witness :
  (dial (samples.failingFetch [samples.lunch]) = None
   /\ login (samples.failingFetch [samples.lunch]) = None)
  /\ select (samples.failingFetch [samples.lunch]) = inr 1%N
  /\ snd (uidFetch (samples.failingFetch [samples.lunch]) [7%N])
     = Some (Lib "connection reset by peer")
  /\ Forall extractable (fst (uidFetch (samples.failingFetch [samples.lunch]) [7%N]))
  /\ surfaces
       (ReadMessage (NewReader (IMAP samples.me)) (samples.failingFetch [samples.lunch]) 7%N)
       (Lib "connection reset by peer")
       (ErrorfW "failed to fetch message: %w" [] (Lib "connection reset by peer"))
       (connected (NewReader (IMAP samples.me))
          ++ [Select "INBOX" false; UidFetch [7%N] readItems; Logout]).
Proof.
  assert (H1 : dial (samples.failingFetch [samples.lunch]) = None
               /\ login (samples.failingFetch [samples.lunch]) = None)
    by (split; reflexivity).
  assert (H2 : select (samples.failingFetch [samples.lunch]) = inr 1%N) by reflexivity.
  assert (H3 : snd (uidFetch (samples.failingFetch [samples.lunch]) [7%N])
               = Some (Lib "connection reset by peer")) by reflexivity.
  assert (H4 : Forall extractable
                 (fst (uidFetch (samples.failingFetch [samples.lunch]) [7%N]))).
  { change (Forall extractable [samples.lunch]).
    constructor; [intros source H; discriminate H | constructor]. }
  repeat (split; [assumption|]).
  destruct (library_failures_surface (NewReader (IMAP samples.me))
              (NewSender (SMTP samples.me)) (samples.failingFetch [samples.lunch])
              (Lib "connection reset by peer"))
    as (_ & _ & _ & _ & _ & _ & Hread & _).
  exact (Hread 7%N 1%N H1 H2 H3 H4).
Defined.

(** A message whose body is no well-formed mail: [mail.CreateReader]
    fails on it, and [ReadMessage] returns the message with the raw bytes
    as its body, not an error. *)
Lemma ReadMessage_drops_parse_failure :
  (forall source : sectionData,
     GetBody samples.garbled = Some source ->
     CreateReader source = inl (Lib "malformed MIME header line"))
  /\ result (ReadMessage (NewReader (IMAP samples.me))
               (samples.serving [samples.garbled]) 4%N)
     = Returns (inr (mkMessage 4 1 "" "Broken" "Bob <bob@example.com>" ["me@example.com"]
                       [] [] 0 "see you at noon" "see you at noon" []))
  /\ ~ exists e : error,
         result (ReadMessage (NewReader (IMAP samples.me))
                   (samples.serving [samples.garbled]) 4%N)
         = Returns (inl e).
Proof.
  split; [intros source H; injection H as <-; reflexivity|].
  split; [vm_compute; reflexivity|].
  intros [e H]. vm_compute in H. discriminate H.
Qed.

(** * Further properties of the code *)

(** ** The reply command *)

Section ReplyCommand.
Import cli cli.reply.

Lemma ccFromTo_origin (smtp : SMTPConfig) (original : Message) (cc : list string)
    (addr : string) :
  addr ∈ ccFromTo smtp original cc ->
  addr ∈ cc \/ (addr ∈ To original /\ addr <> msgFrom original).
Proof.
  unfold ccFromTo. revert cc.
  induction (To original) as [|a l IH]; intros cc H; simpl in H; [now left|].
  apply IH in H as [H|[H1 H2]]; [|right; split; [now right | exact H2]].
  destruct (negb (isSelf a _ _)); simpl in H; [|now left].
  destruct (String.eqb a (msgFrom original)) eqn:E; simpl in H; [now left|].
  destruct (existsb _ cc); simpl in H; [now left|].
  apply elem_of_app in H as [H|H]; [now left|].
  apply list_elem_of_singleton in H as ->. apply String.eqb_neq in E.
  right. split; [now left | exact E].
Qed.

(** The copy list of a reply is empty unless [--all] is given; under
    [--all] each of its addresses stood in the copy list of the original
    or, being different from the sender, in its To list, and none of
    them is an address of the user. *)
Theorem buildCC_sound (all : bool) (smtp : SMTPConfig) (original : Message)
    (addr : string) :
  addr ∈ buildCC all smtp original ->
  all = true
  /\ ownAddress smtp addr = false
  /\ (addr ∈ CC original \/ (addr ∈ To original /\ addr <> msgFrom original)).
Proof.
  intros H. split; [destruct all; [reflexivity | inversion H]|].
  split; [exact (buildCC_not_self smtp original all addr H)|].
  destruct all; [|inversion H]. unfold buildCC in H.
  apply ccFromTo_origin in H as [H|H]; [left | now right].
  rewrite ccFromCC_filter in H. simpl app in H.
  apply list_elem_of_In, filter_In in H as [H _]. now apply list_elem_of_In.
Qed.

Lemma buildCC_sound_witness :
  "carol@example.com" ∈ buildCC true (SMTP samples.me) samples.lunchMessage
  /\ true = true
  /\ ownAddress (SMTP samples.me) "carol@example.com" = false
  /\ ("carol@example.com" ∈ CC samples.lunchMessage
      \/ ("carol@example.com" ∈ To samples.lunchMessage
          /\ "carol@example.com" <> msgFrom samples.lunchMessage)).
Proof.
  assert (H : "carol@example.com" ∈ buildCC true (SMTP samples.me) samples.lunchMessage)
    by (vm_compute; right; left).
  split; [exact H|].
  exact (buildCC_sound true (SMTP samples.me) samples.lunchMessage "carol@example.com" H).
Defined.

Lemma attached_attach (atts : list string) (m : gomailMessage) :
  attached (fold_left Attach atts m) = attached m ++ atts.
Proof.
  revert m. induction atts as [|a l IH]; intros m; simpl; [now rewrite app_nil_r|].
  rewrite IH. simpl. now rewrite <- app_assoc.
Qed.

Lemma bodyParts_attach (atts : list string) (m : gomailMessage) :
  bodyParts (fold_left Attach atts m) = bodyParts m.
Proof. revert m. induction atts as [|a l IH]; intros m; simpl; [reflexivity | now rewrite IH]. Qed.

(** What [Send] builds, field by field, when no custom header is given. *)
Lemma buildMessage_fields (s : Sender) (to : list string) (subject body : string)
    (o : sendOptions) :
  headers o = ∅ ->
  let m := buildMessage s to subject body o in
  header m !! "From" = Some [senderAddress (sconfig s)]
  /\ header m !! "To" = Some to
  /\ header m !! "Subject" = Some [subject]
  /\ header m !! "Cc" = fieldOf (cc o)
  /\ header m !! "Bcc" = fieldOf (bcc o)
  /\ bodyParts m = bodyPartsOf body (htmlBody o)
  /\ attached m = attachments o.
Proof.
  intros Hh m. subst m. unfold buildMessage, senderAddress, bodyPartsOf.
  rewrite header_attach, bodyParts_attach, attached_attach, Hh, map_fold_empty.
  destruct (isEmpty (From (sconfig s))), (isEmpty (htmlBody o)), (isEmpty body),
    (isEmpty (inReplyTo o)), (cc o) as [|c1 cs], (bcc o) as [|b1 bs],
    (references o) as [|r1 rs]; simpl; repeat split; by simplify_map_eq.
Qed.

Lemma buildOptions_applied (cc : list string) (original : Message) :
  applyOptions (buildOptions cc original)
  = mkSendOptions cc [] "" [] ∅ (MessageID original)
      (if isEmpty (MessageID original) then [] else [MessageID original]).
Proof.
  unfold applyOptions, buildOptions.
  destruct cc as [|c cs]; destruct (MessageID original) as [|x xs]; reflexivity.
Qed.

Lemma sendReply_outcome (f : flags) (g : globals) (cfg : Config) (w : world)
    (text : string) (original : Message) :
  calls (sendReply f g cfg w text original)
    = [DialAndSend (newDialer (NewSender (SMTP cfg))) (replyMessage f cfg w text original)]
  /\ result (sendReply f g cfg w text original)
    = Returns (match dialAndSend w (replyMessage f cfg w text original) with
               | Some err => handleError g (ErrorfW "failed to send email: %w" [] err)
               | None => ReturnsNil
               end).
Proof.
  unfold sendReply, Send, replyMessage, replyBodyOf. io_unfold.
  destruct (dialAndSend w _); split; reflexivity.
Qed.

(** How the reply command gets to its text. *)
Lemma run_reads_text (f : flags) (w : world) :
  let read : io (error + string) :=
    if negb (isEmpty (bodyFile f)) then does (ReadFile (bodyFile f)) (readFile w (bodyFile f))
    else mret (inr (body f)) in
  result read = Returns (replyText f w)
  /\ calls read = (if isEmpty (bodyFile f) then [] else [ReadFile (bodyFile f)]).
Proof. unfold replyText. destruct (isEmpty (bodyFile f)); split; reflexivity. Qed.

(** Every message the reply command hands over is the one it builds for
    the text it was given and the original it fetched. *)
Lemma run_sent (f : flags) (g : globals) (cfg : Config) (w : world) (m : gomailMessage) :
  m ∈ sentMessages (calls (run f g cfg w)) ->
  exists (text : string) (original : Message),
    replyText f w = inr text
    /\ result (ReadMessage (NewReader (overrideMailbox (mailbox f) (IMAP cfg))) w (uid f))
       = Returns (inr original)
    /\ m = replyMessage f cfg w text original.
Proof.
  unfold run.
  destruct (uid f =? 0)%N; [intros H; inversion H|].
  destruct (ValidateIMAP cfg); [intros H; inversion H|].
  destruct (ValidateSMTP cfg); [intros H; inversion H|].
  destruct (run_reads_text f w) as [Hres Hcalls]. cbv zeta in Hres, Hcalls.
  rewrite calls_bind, Hres, sentMessages_app, Hcalls.
  assert (sentMessages (if isEmpty (bodyFile f) then [] else [ReadFile (bodyFile f)]) = [])
    as -> by (destruct (isEmpty (bodyFile f)); reflexivity).
  simpl app.
  destruct (replyText f w) as [err|text]; [intros H; inversion H|].
  destruct (isEmpty text); [intros H; inversion H|].
  rewrite calls_bind.
  destruct (result (ReadMessage _ w (uid f))) as [[err|original]|msg|] eqn:Horig.
  - rewrite sentMessages_app, ReadMessage_sends_nothing. intros H; inversion H.
  - rewrite sentMessages_app, ReadMessage_sends_nothing. simpl app.
    destruct (sendReply_outcome f g cfg w text original) as [-> _].
    intros H. apply list_elem_of_singleton in H. eauto.
  - rewrite ReadMessage_sends_nothing. intros H; inversion H.
  - rewrite ReadMessage_sends_nothing. intros H; inversion H.
Qed.

Lemma replyMessage_fields (f : flags) (cfg : Config) (w : world) (text : string)
    (original : Message) :
  let m := replyMessage f cfg w text original in
  headerValues m "To" = [msgFrom original]
  /\ headerValues m "Cc" = buildCC (all f) (SMTP cfg) original
  /\ headerValues m "Subject" = [buildSubject original]
  /\ headerValues m "From" = [senderAddress (SMTP cfg)]
  /\ header m !! "Bcc" = None
  /\ bodyParts m = [("text/plain", replyBodyOf f w text original)]
  /\ attached m = [].
Proof.
  intros m. subst m. unfold replyMessage, headerValues.
  destruct (buildMessage_fields (NewSender (SMTP cfg)) [msgFrom original]
              (buildSubject original) (replyBodyOf f w text original)
              (applyOptions (buildOptions (buildCC (all f) (SMTP cfg) original) original)))
    as (H1 & H2 & H3 & H4 & H5 & H6 & H7);
    [now rewrite buildOptions_applied|].
  rewrite H1, H2, H3, H4, H5, H6, H7, buildOptions_applied. simpl.
  repeat split. destruct (buildCC _ _ _); reflexivity.
Qed.



(** When the copy list of the original holds no entry twice and does
    not hold the sender's entry, the To and Cc fields of the reply hold
    no entry twice.  Entries are compared as texts, as the code compares
    them: one mailbox written in two ways counts as two entries. *)
Theorem reply_recipients_distinct (f : flags) (g : globals) (cfg : Config) (w : world)
    (m : gomailMessage) (original : Message) :
  m ∈ sentMessages (calls (run f g cfg w)) ->
  result (ReadMessage (NewReader (overrideMailbox (mailbox f) (IMAP cfg))) w (uid f))
    = Returns (inr original) ->
  NoDup (CC original) -> msgFrom original ∉ CC original ->
  NoDup (recipients m).
Proof.
  intros H Horig Hnd Hfrom.
  apply run_sent in H as (text & original' & _ & Horig' & ->).
  assert (original' = original) as -> by congruence.
  destruct (replyMessage_fields f cfg w text original) as (HTo & HCc & _).
  unfold recipients. rewrite HTo, HCc. simpl app.
  destruct (all f).
  - now apply buildCC_NoDup_from_clean_CC.
  - apply NoDup_singleton.
Qed.

Lemma reply_recipients_distinct_witness :
  (samples.partyReply ∈ sentMessages (calls samples.replyAllToParty)
   /\ result (ReadMessage (NewReader (overrideMailbox "" (IMAP samples.me)))
                (samples.serving [samples.party]) 12%N)
      = Returns (inr (mkMessage 12 1 "<inv-1@example.com>" "Party" "Bob <bob@example.com>"
                        ["me@example.com"; "dave@example.com"] ["carol@example.com"] []
                        0 "See you at noon" "See you at noon" []))
   /\ NoDup ["carol@example.com"]
   /\ "Bob <bob@example.com>" ∉ ["carol@example.com"])
  /\ NoDup (recipients samples.partyReply)
  /\ recipients samples.partyReply
     = ["Bob <bob@example.com>"; "carol@example.com"; "dave@example.com"].
Proof.
  assert (H1 : samples.partyReply ∈ sentMessages (calls samples.replyAllToParty))
    by (vm_compute; left).
  assert (H2 : result (ReadMessage (NewReader (overrideMailbox "" (IMAP samples.me)))
                         (samples.serving [samples.party]) 12%N)
               = Returns (inr (mkMessage 12 1 "<inv-1@example.com>" "Party"
                                 "Bob <bob@example.com>"
                                 ["me@example.com"; "dave@example.com"]
                                 ["carol@example.com"] []
                                 0 "See you at noon" "See you at noon" [])))
    by (vm_compute; reflexivity).
  assert (H3 : NoDup ["carol@example.com"]) by apply NoDup_singleton.
  assert (H4 : "Bob <bob@example.com>" ∉ ["carol@example.com"])
    by (intros H; apply list_elem_of_singleton in H; discriminate H).
  split; [auto|]. split; [|vm_compute; reflexivity].
  exact (reply_recipients_distinct (mkFlags 12 "" "Coming" "" true false) samples.plain
           samples.me (samples.serving [samples.party]) samples.partyReply _ H1 H2 H3 H4).
Defined.

(** Nothing is asked of a server or of the file system before the UID
    and both configurations have been checked: with a zero UID or an
    incomplete IMAP or SMTP configuration the reply command makes no
    call at all and ends with an error. *)
Theorem reply_validates_first (f : flags) (g : globals) (cfg : Config) (w : world) :
  uid f = 0%N \/ ValidateIMAP cfg <> None \/ ValidateSMTP cfg <> None ->
  calls (run f g cfg w) = []
  /\ exists err : error, result (run f g cfg w) = Returns (handleError g err).
Proof.
  intros H. unfold run.
  destruct (uid f =? 0)%N eqn:Huid; [split; [reflexivity | eauto]|].
  destruct (ValidateIMAP cfg) as [e1|]; [split; [reflexivity | eauto]|].
  destruct (ValidateSMTP cfg) as [e2|]; [split; [reflexivity | eauto]|].
  apply N.eqb_neq in Huid. destruct H as [H|[H|H]]; contradiction.
Qed.

Lemma reply_validates_first_witness :
  (uid (mkFlags 0 "" "ok" "" false false) = 0%N
   \/ ValidateIMAP samples.me <> None \/ ValidateSMTP samples.me <> None)
  /\ calls (run (mkFlags 0 "" "ok" "" false false) samples.plain samples.me
              (samples.serving [samples.lunch])) = []
  /\ exists err : error,
       result (run (mkFlags 0 "" "ok" "" false false) samples.plain samples.me
                 (samples.serving [samples.lunch]))
       = Returns (handleError samples.plain err).
Proof.
  assert (H : uid (mkFlags 0 "" "ok" "" false false) = 0%N
              \/ ValidateIMAP samples.me <> None \/ ValidateSMTP samples.me <> None)
    by (left; reflexivity).
  split; [exact H|].
  exact (reply_validates_first (mkFlags 0 "" "ok" "" false false) samples.plain samples.me
           (samples.serving [samples.lunch]) H).
Defined.



(** The subject of a reply starts with ["re:"] in some spelling of its
    letters, and a subject that does is left alone: replying to a reply
    does not stack prefixes. *)
Theorem buildSubject_prefixes_once (original : Message) :
  HasPrefix (ToLower (buildSubject original)) "re:" = true
  /\ buildSubject (withSubject (buildSubject original) original) = buildSubject original.
Proof.
  assert (H : HasPrefix (ToLower (buildSubject original)) "re:" = true).
  { unfold buildSubject.
    destruct (HasPrefix (ToLower (Subject original)) "re:") eqn:E; simpl negb; cbv iota.
    - exact E.
    - reflexivity. }
  split; [exact H|].
  unfold buildSubject at 1. unfold withSubject at 1 2. cbn [Subject].
  rewrite H. reflexivity.
Qed.

End ReplyCommand.

(** ** Recognising the user's own address *)

Section OwnAddress.
Import cli.

Lemma ToLower_app (a b : string) : ToLower (a +:+ b) = ToLower a +:+ ToLower b.
Proof. induction a as [|x a IH]; simpl; [reflexivity | now rewrite IH]. Qed.

Lemma lowerByte_lt (x : ascii) : Ascii.eqb (lowerByte x) "<"%char = Ascii.eqb x "<"%char.
Proof. destruct x as [[] [] [] [] [] [] [] []]; reflexivity. Qed.

Lemma lowerByte_gt (x : ascii) : Ascii.eqb (lowerByte x) ">"%char = Ascii.eqb x ">"%char.
Proof. destruct x as [[] [] [] [] [] [] [] []]; reflexivity. Qed.

Lemma ToLower_free_lt (s : string) : free "<"%char (ToLower s) = free "<"%char s.
Proof. induction s as [|x s IH]; simpl; [reflexivity | now rewrite lowerByte_lt, IH]. Qed.

Lemma ToLower_free_gt (s : string) : free ">"%char (ToLower s) = free ">"%char s.
Proof. induction s as [|x s IH]; simpl; [reflexivity | now rewrite lowerByte_gt, IH]. Qed.

Lemma free_app (c : ascii) (a b : string) :
  free c (a +:+ b) = free c a && free c b.
Proof. induction a as [|x a IH]; simpl; [reflexivity | now rewrite IH, andb_assoc]. Qed.

Lemma LastIndex_free (c : ascii) (s : string) : free c s = true -> LastIndex s c = -1.
Proof.
  induction s as [|x s IH]; [reflexivity|]. simpl. intros H.
  apply andb_prop in H as [Hx Hs]. rewrite (IH Hs). apply negb_true_iff in Hx.
  now rewrite Hx.
Qed.

(** The last occurrence is the one behind which there is none. *)
Lemma LastIndex_last (c : ascii) (a b : string) :
  free c b = true -> LastIndex (a +:+ String c b) c = len a.
Proof.
  intros Hb. induction a as [|x a IH].
  - simpl. rewrite (LastIndex_free c b Hb). simpl. now rewrite Ascii.eqb_refl.
  - simpl. rewrite IH.
    assert ((0 <=? len a) = true) as -> by (apply Z.leb_le, len_nonneg).
    unfold len. simpl String.length. lia.
Qed.

Lemma substring_middle (a e b : string) :
  String.substring (String.length a) (String.length e) (a +:+ e +:+ b) = e.
Proof.
  induction a as [|x a IH]; simpl; [|exact IH].
  induction e as [|y e IHe]; simpl; [destruct b; reflexivity|].
  now rewrite IHe.
Qed.

(** An address in angle brackets at the end of a text is compared
    without the brackets and without what stands before them. *)
Lemma isSelf_bracketed (before e from username : string) :
  free "<"%char e = true -> free ">"%char e = true ->
  isSelf (before +:+ "<" +:+ e +:+ ">") from username
  = String.eqb (ToLower e) (ToLower from) || String.eqb (ToLower e) (ToLower username).
Proof.
  intros Hlt Hgt. unfold isSelf. rewrite !ToLower_app.
  change (ToLower "<") with "<". change (ToLower ">") with ">".
  set (b := ToLower before). set (l := ToLower e).
  assert (Hidx : LastIndex (b +:+ "<" +:+ l +:+ ">") "<"%char = len b).
  { apply (LastIndex_last "<"%char b (l +:+ ">")).
    rewrite free_app. subst l. now rewrite ToLower_free_lt, Hlt. }
  assert (Hend : LastIndex (b +:+ "<" +:+ l +:+ ">") ">"%char = len b + 1 + len l).
  { replace (b +:+ "<" +:+ l +:+ ">") with ((b +:+ "<" +:+ l) +:+ String ">"%char "")
      by now rewrite !string_app_assoc.
    rewrite LastIndex_last by reflexivity. rewrite !len_app.
    change (len "<") with 1. lia. }
  rewrite Hidx, Hend.
  pose proof (len_nonneg b) as Hb. pose proof (len_nonneg l) as Hl.
  assert ((len b =? -1) = false) as -> by (apply Z.eqb_neq; lia).
  assert ((len b + 1 + len l =? -1) = false) as -> by (apply Z.eqb_neq; lia).
  assert ((len b + 1 + len l >? len b) = true) as -> by (apply Z.gtb_lt; lia).
  simpl negb. simpl andb. cbv iota.
  assert (Hslice : slice (b +:+ "<" +:+ l +:+ ">") (len b + 1) (len b + 1 + len l) = l).
  { unfold slice.
    replace (b +:+ "<" +:+ l +:+ ">") with ((b +:+ "<") +:+ l +:+ ">")
      by now rewrite !string_app_assoc.
    replace (Z.to_nat (len b + 1)) with (String.length (b +:+ "<"))
      by (rewrite string_length_app; unfold len; simpl; lia).
    replace (Z.to_nat (len b + 1 + len l - (len b + 1))) with (String.length l)
      by (unfold len; lia).
    apply substring_middle. }
  rewrite Hslice. reflexivity.
Qed.

Lemma isSelf_bare (e from username : string) :
  free "<"%char e = true ->
  isSelf e from username
  = String.eqb (ToLower e) (ToLower from) || String.eqb (ToLower e) (ToLower username).
Proof.
  intros Hlt. unfold isSelf.
  rewrite (LastIndex_free "<"%char (ToLower e)) by now rewrite ToLower_free_lt.
  reflexivity.
Qed.

(** Among texts of ASCII bytes: an address as the reader formats it,
    with or without a display name, is the user's own exactly when its
    bare address equals the configured From address or user name, the
    case of the letters A to Z aside; the display name plays no part.
    (The bare address must hold no angle bracket.) *)
Theorem isSelf_formatAddress (a : Address) (from username : string) :
  isASCII (formatAddress (Some a)) = true ->
  isASCII from = true -> isASCII username = true ->
  free "<"%char (bareAddress a) = true -> free ">"%char (bareAddress a) = true ->
  isSelf (formatAddress (Some a)) from username
  = String.eqb (ToLower (bareAddress a)) (ToLower from)
    || String.eqb (ToLower (bareAddress a)) (ToLower username).
Proof.
  intros _ _ _ Hlt Hgt. unfold formatAddress. fold (bareAddress a).
  destruct (isEmpty (PersonalName a)); simpl negb; cbv iota.
  - now apply isSelf_bare.
  - replace (PersonalName a +:+ " <" +:+ MailboxName a +:+ "@" +:+ HostName a +:+ ">")
      with ((PersonalName a +:+ " ") +:+ "<" +:+ bareAddress a +:+ ">")
      by (unfold bareAddress; now rewrite !string_app_assoc).
    now apply isSelf_bracketed.
Qed.

Lemma isSelf_formatAddress_witness :
  (isASCII (formatAddress (Some (mkAddress "Me <work>" "Me" "Example.COM"))) = true
   /\ isASCII "me@example.com" = true /\ isASCII "someone" = true)
  /\ (free "<"%char (bareAddress (mkAddress "Me <work>" "Me" "Example.COM")) = true
      /\ free ">"%char (bareAddress (mkAddress "Me <work>" "Me" "Example.COM")) = true)
  /\ isSelf (formatAddress (Some (mkAddress "Me <work>" "Me" "Example.COM")))
       "me@example.com" "someone"
     = true.
Proof.
  split; [repeat split; reflexivity|].
  split; [split; reflexivity|].
  rewrite (isSelf_formatAddress (mkAddress "Me <work>" "Me" "Example.COM")
             "me@example.com" "someone" eq_refl eq_refl eq_refl eq_refl eq_refl).
  reflexivity.
Defined.

End OwnAddress.

(** ** The reader *)

Section ReaderMore.

Lemma ReadMessage_error_origin_witness :
  result (ReadMessage (NewReader (IMAP samples.me)) (samples.failingFetch [samples.lunch]) 7%N)
    = Returns (inl (ErrorfW "failed to fetch message: %w" [] (Lib "connection reset by peer")))
  /\ ((exists c, dial (samples.failingFetch [samples.lunch]) = Some c
                 /\ ErrorfW "failed to fetch message: %w" [] (Lib "connection reset by peer")
                    = ErrorfW "failed to connect to IMAP server: %w" [] c)
      \/ (exists c, login (samples.failingFetch [samples.lunch]) = Some c
                    /\ ErrorfW "failed to fetch message: %w" [] (Lib "connection reset by peer")
                       = ErrorfW "failed to login: %w" [] c)
      \/ (exists c, select (samples.failingFetch [samples.lunch]) = inl c
                    /\ ErrorfW "failed to fetch message: %w" [] (Lib "connection reset by peer")
                       = ErrorfW "failed to select mailbox: %w" [] c)
      \/ (exists c, snd (uidFetch (samples.failingFetch [samples.lunch]) [7%N]) = Some c
                    /\ ErrorfW "failed to fetch message: %w" [] (Lib "connection reset by peer")
                       = ErrorfW "failed to fetch message: %w" [] c)
      \/ ErrorfW "failed to fetch message: %w" [] (Lib "connection reset by peer")
         = Errorf "message not found" []).
Proof.
  assert (H : result (ReadMessage (NewReader (IMAP samples.me))
                        (samples.failingFetch [samples.lunch]) 7%N)
              = Returns (inl (ErrorfW "failed to fetch message: %w" []
                                (Lib "connection reset by peer"))))
    by (vm_compute; reflexivity).
  split; [exact H|].
  exact (ReadMessage_error_origin (NewReader (IMAP samples.me))
           (samples.failingFetch [samples.lunch]) 7%N _ H).
Defined.

(** A connection that was opened is closed when the operation ends:
    once the server has been dialled, the calls of a listing or a
    reading that returns a result, returns an error or panics are the
    dialling and the login, then calls within the session, then one
    [Logout] as the last call.  A listing always ends in one of these
    ways.  A reading that does not end, kept in the loop over the parts
    of a body, never logs out. *)
Theorem reader_closes_connection (r : Reader) (w : world) :
  dial w = None ->
  (forall limit unreadOnly,
     result (ListMessages r w limit unreadOnly) <> Hangs
     /\ exists middle : list call,
          calls (ListMessages r w limit unreadOnly) = connected r ++ middle ++ [Logout]
          /\ forallb sessionCall middle = true)
  /\ (forall uid,
        result (ReadMessage r w uid) <> Hangs ->
        exists middle : list call,
          calls (ReadMessage r w uid) = connected r ++ middle ++ [Logout]
          /\ forallb sessionCall middle = true)
  /\ (forall uid,
        result (ReadMessage r w uid) = Hangs ->
        calls (ReadMessage r w uid)
        = connected r ++ [Select (Mailbox (rconfig r)) false; UidFetch [uid] readItems]).
Proof.
  intros Hdial. split; [|split]; intros.
  - unfold ListMessages, Connect. io_unfold. rewrite Hdial. io_unfold.
    destruct (login w); io_unfold; [split; [discriminate | exists []; split; reflexivity]|].
    destruct (select w) as [e|n]; io_unfold;
      [split; [discriminate | eexists [_]; split; reflexivity]|].
    destruct (n =? 0)%N; io_unfold;
      [split; [discriminate | eexists [_]; split; reflexivity]|].
    destruct (uidSearch w _) as [e|uids]; io_unfold;
      [split; [discriminate | eexists [_; _]; split; reflexivity]|].
    destruct uids as [|u us]; io_unfold;
      [split; [discriminate | eexists [_; _]; split; reflexivity]|].
    destruct (snd (uidFetch w _)); io_unfold;
      (split; [discriminate | eexists [_; _; _]; split; reflexivity]).
  - revert H. unfold ReadMessage, Connect. io_unfold. rewrite Hdial. io_unfold.
    destruct (login w); io_unfold; [intros _; exists []; split; reflexivity|].
    destruct (select w) as [e|n]; io_unfold; [intros _; eexists [_]; split; reflexivity|].
    destruct (readLoop _ None) as [found|msg|]; io_unfold;
      [|intros _; eexists [_; _]; split; reflexivity|intros H; now contradiction H].
    destruct (snd (uidFetch w _)); io_unfold;
      [intros _; eexists [_; _]; split; reflexivity|].
    destruct found; io_unfold; intros _; eexists [_; _]; split; reflexivity.
  - revert H. unfold ReadMessage, Connect. io_unfold. rewrite Hdial. io_unfold.
    destruct (login w); io_unfold; [discriminate|].
    destruct (select w) as [e|n]; io_unfold; [discriminate|].
    destruct (readLoop _ None) as [found|msg|]; io_unfold;
      [|discriminate|reflexivity].
    destruct (snd (uidFetch w _)); io_unfold; [discriminate|].
    destruct found; io_unfold; discriminate.
Qed.

Lemma reader_closes_connection_witness :
  dial (samples.serving [samples.cutShort]) = None
  /\ (result (ReadMessage (NewReader (IMAP samples.me)) (samples.serving [samples.lunch]) 7%N)
      <> Hangs
      /\ exists middle : list call,
           calls (ReadMessage (NewReader (IMAP samples.me)) (samples.serving [samples.lunch])
                    7%N)
           = connected (NewReader (IMAP samples.me)) ++ middle ++ [Logout]
           /\ forallb sessionCall middle = true)
  /\ result (ReadMessage (NewReader (IMAP samples.me)) (samples.serving [samples.cutShort])
               16%N) = Hangs
  /\ calls (ReadMessage (NewReader (IMAP samples.me)) (samples.serving [samples.cutShort])
              16%N)
     = connected (NewReader (IMAP samples.me))
         ++ [Select "INBOX" false; UidFetch [16%N] readItems].
Proof.
  assert (H : dial (samples.serving [samples.cutShort]) = None) by reflexivity.
  assert (Hends : result (ReadMessage (NewReader (IMAP samples.me))
                            (samples.serving [samples.lunch]) 7%N) <> Hangs)
    by (vm_compute; discriminate).
  assert (Hhangs : result (ReadMessage (NewReader (IMAP samples.me))
                             (samples.serving [samples.cutShort]) 16%N) = Hangs)
    by (vm_compute; reflexivity).
  split; [exact H|]. split.
  - split; [exact Hends|].
    exact (proj1 (proj2 (reader_closes_connection (NewReader (IMAP samples.me))
                           (samples.serving [samples.lunch]) eq_refl)) 7%N Hends).
  - split; [exact Hhangs|].
    exact (proj2 (proj2 (reader_closes_connection (NewReader (IMAP samples.me))
                           (samples.serving [samples.cutShort]) H)) 16%N Hhangs).
Defined.

Lemma convertMessage_bodiless (msg : imapMessage) (fullBody : bool) :
  bodiless (convertMessage msg fullBody).
Proof. unfold convertMessage, bodiless. destruct (Envelope_ msg); repeat split. Qed.

(** A listing carries no bodies: whatever the server delivers, every
    message that [ListMessages] returns has an empty body, preview and
    Message-ID. *)
Theorem ListMessages_bodiless (r : Reader) (w : world) (limit : Z) (unreadOnly : bool)
    (listed : list Message) :
  result (ListMessages r w limit unreadOnly) = Returns (inr listed) ->
  Forall bodiless listed.
Proof.
  unfold ListMessages, Connect. io_unfold.
  destruct (dial w); io_unfold; [discriminate|].
  destruct (login w); io_unfold; [discriminate|].
  destruct (select w) as [e|n]; io_unfold; [discriminate|].
  destruct (n =? 0)%N; io_unfold; [intros H; injection H as <-; constructor|].
  destruct (uidSearch w _) as [e|uids]; io_unfold; [discriminate|].
  destruct uids as [|u us]; io_unfold; [intros H; injection H as <-; constructor|].
  destruct (snd (uidFetch w _)); io_unfold; [discriminate|].
  intros H; injection H as <-.
  apply Forall_map, Forall_forall. intros msg _. apply convertMessage_bodiless.
Qed.

Lemma ListMessages_bodiless_witness :
  result (ListMessages (NewReader (IMAP samples.me)) (samples.serving [samples.invitation])
            20 false)
    = Returns (inr [convertMessage samples.invitation false])
  /\ Forall bodiless [convertMessage samples.invitation false].
Proof.
  assert (H : result (ListMessages (NewReader (IMAP samples.me))
                        (samples.serving [samples.invitation]) 20 false)
              = Returns (inr [convertMessage samples.invitation false]))
    by (vm_compute; reflexivity).
  split; [exact H|].
  exact (ListMessages_bodiless _ _ _ _ _ H).
Defined.

Lemma readLoop_preview (msgs : list imapMessage) (start found : option Message) :
  readLoop msgs start = Returns found ->
  (forall m, start = Some m -> BodyPreview m = createPreview (Body m) 200) ->
  forall m, found = Some m -> BodyPreview m = createPreview (Body m) 200.
Proof.
  revert start. induction msgs as [|msg rest IH]; intros start Hloop Hstart.
  - injection Hloop as <-. exact Hstart.
  - cbn [readLoop] in Hloop. unfold mbind, outcome_bind in Hloop.
    destruct (GetBody msg) as [source|].
    + destruct (extractBody source) as [[[body messageID] [err|]]|panic|];
        try discriminate.
      * apply (IH _ Hloop). intros m Hm. injection Hm as <-.
        destruct (convertMessage_bodiless msg true) as (-> & -> & _). reflexivity.
      * apply (IH _ Hloop). intros m Hm. injection Hm as <-. reflexivity.
    + apply (IH _ Hloop). intros m Hm. injection Hm as <-.
      destruct (convertMessage_bodiless msg true) as (-> & -> & _). reflexivity.
Qed.

(** The preview of a message that was read is always the preview of its
    body, cut at 200 bytes, and so has at most 203 bytes. *)
Theorem ReadMessage_preview (r : Reader) (w : world) (uid : N) (m : Message) :
  result (ReadMessage r w uid) = Returns (inr m) ->
  BodyPreview m = createPreview (Body m) 200 /\ len (BodyPreview m) <= 203.
Proof.
  intros H.
  assert (Hp : BodyPreview m = createPreview (Body m) 200).
  { revert H. unfold ReadMessage, Connect. io_unfold.
    destruct (dial w); io_unfold; [discriminate|].
    destruct (login w); io_unfold; [discriminate|].
    destruct (select w) as [e|n]; io_unfold; [discriminate|].
    destruct (readLoop _ None) as [found|msg|] eqn:Hloop; io_unfold;
      [|discriminate|discriminate].
    destruct (snd (uidFetch w _)); io_unfold; [discriminate|].
    destruct found as [m'|]; io_unfold; [|discriminate].
    intros H; injection H as ->.
    apply (readLoop_preview _ None (Some m) Hloop); [discriminate | reflexivity]. }
  split; [exact Hp|]. rewrite Hp. apply createPreview_200.
Qed.

Lemma ReadMessage_preview_witness :
  result (ReadMessage (NewReader (IMAP samples.me)) (samples.serving [samples.invitation]) 9%N)
    = Returns (inr (mkMessage 9 1 "<inv-1@example.com>" "Invitation" "Bob <bob@example.com>"
                      ["me@example.com"] [] [] 0 "See you at noon" "See you at noon" []))
  /\ "See you at noon" = createPreview "See you at noon" 200
  /\ len "See you at noon" <= 203.
Proof.
  assert (H : result (ReadMessage (NewReader (IMAP samples.me))
                        (samples.serving [samples.invitation]) 9%N)
              = Returns (inr (mkMessage 9 1 "<inv-1@example.com>" "Invitation"
                                "Bob <bob@example.com>" ["me@example.com"] [] [] 0
                                "See you at noon" "See you at noon" [])))
    by (vm_compute; reflexivity).
  split; [exact H|].
  exact (ReadMessage_preview _ _ _ _ H).
Defined.

(** [extractBody] returns an error in one case only: the MIME reader
    could not be created and reading the raw bytes failed too; then the
    error is that of the read, and body and Message-ID are empty. *)
Theorem extractBody_error_iff (reader : sectionData) (body messageID : string)
    (err : error) :
  extractBody reader = Returns (body, messageID, Some err)
  <-> (exists e, CreateReader reader = inl e)
      /\ ReadAll reader = inl err /\ body = "" /\ messageID = "".
Proof.
  unfold extractBody. split.
  - destruct (CreateReader reader) as [e|mr].
    + destruct (ReadAll reader) as [e'|data]; intros H; [|discriminate].
      injection H as <- <- <-. eauto.
    + unfold mbind, outcome_bind.
      destruct (partsLoop _ _ _ _) as [[t h]|msg|]; [|discriminate|discriminate].
      destruct (isEmpty t); simpl; [|discriminate].
      destruct (isEmpty h); simpl; [discriminate|].
      destruct (stripHTML h); discriminate.
  - intros ([e He] & Hr & -> & ->). rewrite He, Hr. reflexivity.
Qed.

End ReaderMore.

(** ** More on the body preview *)

Section PreviewMore.

Lemma free_of_list (c : ascii) (l : list ascii) :
  free c (string_of_list_ascii l) = forallb (fun x => negb (Ascii.eqb x c)) l.
Proof. induction l as [|x l IH]; simpl; [reflexivity | now rewrite IH]. Qed.

Lemma free_reverse (c : ascii) (s : string) : free c (reverse s) = free c s.
Proof.
  unfold reverse. rewrite free_of_list.
  rewrite <- (string_of_list_ascii_of_string s) at 2. rewrite free_of_list.
  induction (list_ascii_of_string s) as [|x l IH]; [reflexivity|].
  simpl. rewrite forallb_app, IH. simpl. rewrite andb_true_r. apply andb_comm.
Qed.

Lemma trimLeading_free (wide : list string) (c : ascii) (s : string) (skip : nat) :
  free c s = true -> free c (trimLeading wide skip s) = true.
Proof.
  revert skip. induction s as [|x s IH]; intros skip H; [reflexivity|].
  cbn [trimLeading]. pose proof H as Hs. simpl in Hs. apply andb_prop in Hs as [_ Hs].
  destruct skip as [|k]; [|now apply IH].
  destruct (spaceWidth wide (String x s)) as [[|k]|]; [exact H | now apply IH | exact H].
Qed.

Lemma TrimSpace_free c s : free c s = true -> free c (TrimSpace s) = true.
Proof.
  intros H. unfold TrimSpace, TrimRightSpace, TrimLeftSpace.
  rewrite free_reverse. apply trimLeading_free. rewrite free_reverse.
  now apply trimLeading_free.
Qed.

Lemma substring_free c n s : free c s = true -> free c (String.substring 0 n s) = true.
Proof.
  revert s. induction n as [|n IH]; intros [|x s] H; try reflexivity.
  simpl in *. apply andb_prop in H as [Hx H]. now rewrite Hx, IH.
Qed.

Lemma Join_free c (lines : list string) (sep : string) :
  free c sep = true -> Forall (fun l => free c l = true) lines ->
  free c (Join lines sep) = true.
Proof.
  intros Hsep H. induction H as [|l ls Hl Hls IH]; [reflexivity|].
  destruct ls as [|l2 rest]; [exact Hl|].
  change (Join (l :: l2 :: rest) sep) with (l +:+ sep +:+ Join (l2 :: rest) sep).
  now rewrite !free_app, Hl, Hsep, IH.
Qed.

Lemma previewLoop_free (maxLen : Z) (lines preview : list string) (currentLen : Z) :
  Forall (fun l => free nl l = true) lines ->
  Forall (fun l => free nl l = true) preview ->
  Forall (fun l => free nl l = true) (previewLoop lines preview currentLen maxLen).
Proof.
  intros Hlines. revert preview currentLen.
  induction Hlines as [|line0 rest H0 Hrest IH]; intros preview currentLen Hp; simpl;
    [exact Hp|].
  pose proof (TrimSpace_free nl line0 H0) as Ht.
  destruct (isEmpty (TrimSpace line0)); [now apply IH|].
  destruct (currentLen + len (TrimSpace line0) >? maxLen).
  - destruct (maxLen - currentLen >? 0); [|exact Hp].
    apply Forall_app. split; [exact Hp|]. constructor; [|constructor].
    unfold slice. now apply substring_free.
  - apply IH. apply Forall_app. split; [exact Hp|]. now repeat constructor.
Qed.

(** The preview is a single line: it holds no line feed, whatever the
    body and the length asked for. *)
Theorem createPreview_single_line (body : string) (maxLen : Z) :
  free nl (createPreview body maxLen) = true.
Proof.
  unfold createPreview.
  assert (H : free nl (Join (previewLoop (Split nl body) [] 0 maxLen) " ") = true).
  { apply Join_free; [reflexivity|].
    apply previewLoop_free; [apply Split_free | constructor]. }
  destruct (len body >? maxLen); [|exact H].
  rewrite free_app, H. reflexivity.
Qed.

Lemma length_of_list (l : list ascii) : String.length (string_of_list_ascii l) = length l.
Proof. induction l as [|x l IH]; simpl; [reflexivity | now rewrite IH]. Qed.

Lemma length_reverse (s : string) : String.length (reverse s) = String.length s.
Proof.
  unfold reverse. rewrite length_of_list, length_rev.
  rewrite <- (string_of_list_ascii_of_string s) at 2. now rewrite length_of_list.
Qed.

Lemma trimLeading_length (wide : list string) (s : string) (skip : nat) :
  (String.length (trimLeading wide skip s) <= String.length s)%nat.
Proof.
  revert skip. induction s as [|x s IH]; intros skip; [reflexivity|].
  cbn [trimLeading].
  destruct skip as [|k]; [|specialize (IH k); simpl; lia].
  destruct (spaceWidth wide (String x s)) as [[|k]|]; try reflexivity.
  specialize (IH k). simpl. lia.
Qed.

Lemma TrimSpace_len s : len (TrimSpace s) <= len s.
Proof.
  unfold TrimSpace, TrimRightSpace, TrimLeftSpace, len.
  rewrite length_reverse.
  pose proof (trimLeading_length (map reverse wideSpaces)
                (reverse (trimLeading wideSpaces 0 s)) 0) as H1.
  rewrite length_reverse in H1.
  pose proof (trimLeading_length wideSpaces s 0) as H2. lia.
Qed.

Lemma weight_nonneg (lines : list string) : 0 <= weight lines.
Proof.
  induction lines as [|l ls IH]; simpl; [lia|]. pose proof (len_nonneg l). lia.
Qed.

(** The lines of a body weigh as much as the body and one more. *)
Lemma weight_Split (body : string) : weight (Split nl body) = len body + 1.
Proof.
  induction body as [|c s IH]; [reflexivity|]. cbn [Split].
  destruct (Ascii.eqb c nl).
  - cbn [weight fold_right]. fold (weight (Split nl s)). rewrite IH.
    unfold len. simpl String.length. lia.
  - pose proof (Split_not_nil nl s) as Hne.
    destruct (Split nl s) as [|l ls]; [contradiction|].
    cbn [weight fold_right] in *. fold (weight ls) in *.
    unfold len in *. simpl String.length. lia.
Qed.

(** As long as the lines left fit, the loop takes every line that is
    not blank. *)
Lemma previewLoop_all (maxLen : Z) (lines preview : list string) (currentLen : Z) :
  currentLen + weight lines <= maxLen + 1 ->
  previewLoop lines preview currentLen maxLen
  = preview ++ List.filter (fun line => negb (isEmpty line)) (map TrimSpace lines).
Proof.
  revert preview currentLen.
  induction lines as [|line0 rest IH]; intros preview currentLen H; simpl;
    [now rewrite app_nil_r|].
  cbn [weight fold_right] in H. fold (weight rest) in H.
  pose proof (TrimSpace_len line0) as Ht. pose proof (weight_nonneg rest) as Hw.
  pose proof (len_nonneg line0) as Hl.
  destruct (isEmpty (TrimSpace line0)); simpl; [apply IH; lia|].
  assert ((currentLen + len (TrimSpace line0) >? maxLen) = false) as ->
    by (rewrite Z.gtb_ltb; apply Z.ltb_ge; lia).
  rewrite IH by lia. now rewrite <- app_assoc.
Qed.

(** A body of at most [maxLen] bytes is not cut: its preview is its
    lines, trimmed, the blank ones left out, joined by single blanks. *)
Theorem createPreview_short_body (body : string) (maxLen : Z) :
  len body <= maxLen ->
  createPreview body maxLen = Join (previewLines body) " ".
Proof.
  intros H. unfold createPreview, previewLines.
  assert ((len body >? maxLen) = false) as ->
    by (rewrite Z.gtb_ltb; apply Z.ltb_ge; lia).
  rewrite previewLoop_all; [reflexivity|]. rewrite weight_Split. lia.
Qed.

Lemma createPreview_short_body_witness :
  len ("  hello world " +:+ NL +:+ NL +:+ "second line") <= 200
  /\ createPreview ("  hello world " +:+ NL +:+ NL +:+ "second line") 200
     = "hello world second line".
Proof.
  assert (H : len ("  hello world " +:+ NL +:+ NL +:+ "second line") <= 200)
    by (vm_compute; discriminate).
  split; [exact H|].
  rewrite (createPreview_short_body _ 200 H). reflexivity.
Defined.

End PreviewMore.

(** ** Reading a quoted reply back *)

Section QuotedMore.

Lemma Split_free_line (sep : ascii) (l : string) :
  free sep l = true -> Split sep l = [l].
Proof.
  induction l as [|c l IH]; [reflexivity|]. intros H. simpl in H.
  apply andb_prop in H as [Hc Hl]. apply negb_true_iff in Hc.
  cbn [Split]. rewrite Hc, (IH Hl). reflexivity.
Qed.

Lemma Split_line_sep (sep : ascii) (l t : string) :
  free sep l = true -> Split sep (l +:+ String sep t) = l :: Split sep t.
Proof.
  induction l as [|c l IH]; intros H.
  - change ("" +:+ String sep t) with (String sep t). cbn [Split].
    now rewrite Ascii.eqb_refl.
  - simpl in H. apply andb_prop in H as [Hc Hl]. apply negb_true_iff in Hc.
    change (String c l +:+ String sep t) with (String c (l +:+ String sep t)).
    cbn [Split]. rewrite Hc, (IH Hl). reflexivity.
Qed.

(** Splitting what was joined gives the pieces back. *)
Lemma Split_Join (sep : ascii) (pieces : list string) :
  pieces <> [] -> Forall (fun l => free sep l = true) pieces ->
  Split sep (Join pieces (String sep "")) = pieces.
Proof.
  intros Hne H. induction H as [|l ls Hl Hls IH]; [contradiction|]. clear Hne.
  destruct ls as [|l2 rest].
  - now apply Split_free_line.
  - change (Join (l :: l2 :: rest) (String sep ""))
      with (l +:+ String sep (Join (l2 :: rest) (String sep ""))).
    rewrite (Split_line_sep sep l _ Hl), IH; [reflexivity | discriminate].
Qed.

Lemma drop_app_length (a b : string) : drop (String.length a) (a +:+ b) = b.
Proof. induction a as [|x a IH]; [destruct b; reflexivity | exact IH]. Qed.

Lemma FormatQuotedReply_joined (replyBody originalBody from date : string) :
  FormatQuotedReply replyBody originalBody from date
  = replyHead replyBody from date +:+ Join (map quoted (Split nl originalBody)) NL.
Proof.
  unfold FormatQuotedReply, replyHead, replyPrefix, attribution.
  rewrite quoteLines_block.
  transitivity (TrimRight
                  (((if isEmpty replyBody then "" else replyBody +:+ NL +:+ NL)
                    +:+ ("On " +:+ date +:+ ", " +:+ from +:+ " wrote:") +:+ NL)
                   +:+ quotedBlock (Split nl originalBody)) nl).
  - destruct replyBody; simpl isEmpty; simpl negb; cbv iota;
      rewrite ?string_app_assoc; reflexivity.
  - rewrite TrimRight_block; [reflexivity | apply Split_not_nil | apply Split_free].
Qed.

(** Quoting loses nothing: behind its head (the reply text, the blank
    line and the attribution line) a quoted reply holds the original
    body line by line, and dropping the ["> "] of every line gives the
    original body back byte for byte. *)
Theorem FormatQuotedReply_unquote (replyBody originalBody from date : string) :
  unquote (drop (String.length (replyHead replyBody from date))
             (FormatQuotedReply replyBody originalBody from date))
  = originalBody.
Proof.
  rewrite FormatQuotedReply_joined, drop_app_length. unfold unquote.
  rewrite (Split_Join nl).
  - rewrite map_map. rewrite (map_ext _ (fun l => l)) by reflexivity.
    rewrite map_id. apply Join_Split.
  - pose proof (Split_not_nil nl originalBody).
    destruct (Split nl originalBody); [contradiction | discriminate].
  - apply Forall_map. eapply Forall_impl; [apply Split_free|].
    intros l Hl. now apply quoted_free.
Qed.

End QuotedMore.

(** ** A body in HTML only *)

Section HtmlOnly.

(** A message whose body is HTML only cannot be read: when its parts
    are listed up to [io.EOF], its last text/plain part is absent or
    empty and its last text/html part has content, [extractBody] panics
    in [stripHTML], and so does [ReadMessage] when the server delivers
    that message, after the fetch and with the [Logout] still made. *)
Theorem html_only_body_panics (reader : sectionData) (mr : mailReader) :
  CreateReader reader = inr mr -> PartsEnd mr = EndOfFile ->
  lastInline "text/plain" mr = "" -> lastInline "text/html" mr <> "" ->
  (exists msg : string, extractBody reader = Panics msg)
  /\ forall (r : Reader) (w : world) (uid messages : N) (m : imapMessage)
       (done : option error),
       dial w = None -> login w = None -> select w = inr messages ->
       uidFetch w [uid] = ([m], done) -> GetBody m = Some reader ->
       (exists msg : string, result (ReadMessage r w uid) = Panics msg)
       /\ calls (ReadMessage r w uid)
          = connected r ++ [Select (Mailbox (rconfig r)) false; UidFetch [uid] readItems;
                            Logout].
Proof.
  intros Hmr Hend Hplain Hhtml.
  assert (Hpanic : exists msg : string, extractBody reader = Panics msg).
  { rewrite (extractBody_listed reader mr Hmr Hend), Hplain.
    destruct (lastInline "text/html" mr); [contradiction|].
    cbn [isEmpty negb]. rewrite stripHTML_panics. eexists. reflexivity. }
  split; [exact Hpanic|].
  intros r w uid messages m done H1 H2 H3 H4 H5. destruct Hpanic as [msg Hmsg].
  unfold ReadMessage, Connect. io_unfold. rewrite H1. io_unfold. rewrite H2. io_unfold.
  rewrite H3. io_unfold. rewrite H4. io_unfold. rewrite H5. io_unfold. rewrite Hmsg.
  io_unfold. split; [eexists|]; reflexivity.
Qed.

Lemma html_only_body_panics_witness :
  (forall source : sectionData,
     GetBody samples.newsletter = Some source ->
     exists mr,
       CreateReader source = inr mr /\ PartsEnd mr = EndOfFile
       /\ lastInline "text/plain" mr = "" /\ lastInline "text/html" mr <> "")
  /\ (exists msg : string,
        result (ReadMessage (NewReader (IMAP samples.me))
                  (samples.serving [samples.newsletter]) 15%N) = Panics msg)
  /\ calls (ReadMessage (NewReader (IMAP samples.me))
              (samples.serving [samples.newsletter]) 15%N)
     = connected (NewReader (IMAP samples.me))
         ++ [Select "INBOX" false; UidFetch [15%N] readItems; Logout].
Proof.
  split.
  - intros source H. injection H as <-. eexists. split; [reflexivity|].
    split; [reflexivity|]. split; [reflexivity | discriminate].
  - refine (proj2 (html_only_body_panics
                     (mkSectionData
                        (inr (mkMailReader (fun _ => EmptyString)
                                [InlinePart "text/html" "<p>Sale!</p>"] EndOfFile))
                        (inr EmptyString))
                     (mkMailReader (fun _ => EmptyString)
                        [InlinePart "text/html" "<p>Sale!</p>"] EndOfFile)
                     eq_refl eq_refl eq_refl _) (NewReader (IMAP samples.me))
              (samples.serving [samples.newsletter]) 15%N 1%N samples.newsletter None
              eq_refl eq_refl eq_refl eq_refl eq_refl).
    discriminate.
Defined.

End HtmlOnly.

(** ** The table of the inbox command *)

Section TableCells.
Import cli.

Lemma substring_take_length (n : nat) (s : string) :
  (n <= String.length s)%nat -> String.length (String.substring 0 n s) = n.
Proof.
  revert s. induction n as [|n IH]; intros [|c s] H; simpl in *; try lia.
  f_equal. apply IH. lia.
Qed.

Lemma substring_take_prefix (n : nat) (s : string) :
  exists rest : string, s = String.substring 0 n s +:+ rest.
Proof.
  revert s. induction n as [|n IH]; intros [|c s]; simpl.
  - now exists "".
  - now exists (String c s).
  - now exists "".
  - destruct (IH s) as [rest Hrest]. exists rest. now rewrite <- Hrest.
Qed.

Lemma truncate_cut (s : string) (maxLen : Z) :
  3 <= maxLen -> maxLen < len s ->
  truncate s maxLen = Returns (slice s 0 (maxLen - 3) +:+ "...")
  /\ len (slice s 0 (maxLen - 3) +:+ "...") = maxLen.
Proof.
  intros Hwide Hlong. unfold truncate.
  assert ((len s <=? maxLen) = false) as -> by (apply Z.leb_gt; lia).
  assert ((maxLen - 3 <? 0) = false) as -> by (apply Z.ltb_ge; lia).
  split; [reflexivity|].
  rewrite len_app. unfold slice. rewrite Z.sub_0_r. change (Z.to_nat 0) with 0%nat.
  unfold len in *. rewrite substring_take_length by lia.
  change (Z.of_nat (String.length "...")) with 3. lia.
Qed.

(** A width of three or more is kept: [truncate] returns a text of at
    most [maxLen] bytes, the string itself when it fits, and otherwise a
    beginning of the string followed by three dots, [maxLen] bytes in
    all. *)
Theorem truncate_fits (s : string) (maxLen : Z) :
  3 <= maxLen ->
  exists out : string,
    truncate s maxLen = Returns out
    /\ len out <= maxLen
    /\ (len s <= maxLen -> out = s)
    /\ (maxLen < len s ->
        len out = maxLen
        /\ exists kept dropped : string, s = kept +:+ dropped /\ out = kept +:+ "...").
Proof.
  intros Hwide. destruct (Z.le_gt_cases (len s) maxLen) as [Hshort|Hlong].
  - exists s. unfold truncate.
    assert ((len s <=? maxLen) = true) as -> by (apply Z.leb_le; lia).
    split; [reflexivity|]. split; [exact Hshort|]. split; [reflexivity | lia].
  - destruct (truncate_cut s maxLen Hwide Hlong) as [Hcut Hlen].
    eexists. split; [exact Hcut|]. split; [lia|]. split; [lia|].
    intros _. split; [exact Hlen|].
    destruct (substring_take_prefix (Z.to_nat (maxLen - 3 - 0)) s) as [rest Hrest].
    eexists _, rest. split; [exact Hrest | reflexivity].
Qed.

Lemma truncate_fits_witness :
  3 <= 10
  /\ exists out : string,
       truncate "Quarterly report" 10 = Returns out
       /\ len out <= 10
       /\ (len "Quarterly report" <= 10 -> out = "Quarterly report")
       /\ (10 < len "Quarterly report" ->
           len out = 10
           /\ exists kept dropped : string,
                "Quarterly report" = kept +:+ dropped /\ out = kept +:+ "...").
Proof.
  assert (H : 3 <= 10) by lia.
  split; [exact H|]. exact (truncate_fits "Quarterly report" 10 H).
Defined.

(** [truncate] panics exactly when the string is longer than the width
    and the width is under three: the slice that makes room for the dots
    then has a negative bound. *)
Theorem truncate_panics_iff (s : string) (maxLen : Z) :
  (exists msg : string, truncate s maxLen = Panics msg)
  <-> maxLen < len s /\ maxLen < 3.
Proof.
  unfold truncate.
  destruct (len s <=? maxLen) eqn:Hfit;
    [apply Z.leb_le in Hfit | apply Z.leb_gt in Hfit].
  - split; [intros [msg H]; discriminate | lia].
  - destruct (maxLen - 3 <? 0) eqn:Hneg;
      [apply Z.ltb_lt in Hneg | apply Z.ltb_ge in Hneg].
    + split; [lia | eauto].
    + split; [intros [msg H]; discriminate | lia].
Qed.

Lemma truncate_bounded (s : string) (maxLen : Z) :
  3 <= maxLen -> exists out : string, truncate s maxLen = Returns out /\ len out <= maxLen.
Proof.
  intros Hwide. destruct (Z.le_gt_cases (len s) maxLen) as [Hshort|Hlong].
  - exists s. unfold truncate.
    assert ((len s <=? maxLen) = true) as -> by (apply Z.leb_le; lia). now split.
  - destruct (truncate_cut s maxLen Hwide Hlong) as [Hcut Hlen].
    eexists. split; [exact Hcut | lia].
Qed.

(** The rows of the inbox table are always computed: for every list of
    messages there is one pair of cells per message, the sender's cell of
    at most 25 bytes and the subject's of at most 40. *)
Theorem rows_fit_columns (messages : list Message) :
  exists cells : list (string * string),
    inbox.rows messages = Returns cells
    /\ length cells = length messages
    /\ Forall (fun c => len (fst c) <= 25 /\ len (snd c) <= 40) cells.
Proof.
  induction messages as [|msg rest (cells & Hrows & Hlen & Hfit)].
  - exists []. repeat split. constructor.
  - destruct (truncate_bounded (msgFrom msg) 25) as (from & Hfrom & Hf); [lia|].
    destruct (truncate_bounded (Subject msg) 40) as (subject & Hsubject & Hs); [lia|].
    exists ((from, subject) :: cells).
    cbn [inbox.rows]. unfold inbox.rowCells. rewrite Hfrom, Hsubject, Hrows.
    split; [reflexivity|]. split; [simpl; now rewrite Hlen|].
    constructor; [now split | exact Hfit].
Qed.

Lemma rows_bounded (messages : list Message) :
  exists cells : list (string * string), inbox.rows messages = Returns cells.
Proof.
  induction messages as [|msg rest [cells Hrows]]; [now exists []|].
  destruct (truncate_bounded (msgFrom msg) 25) as (from & Hfrom & _); [lia|].
  destruct (truncate_bounded (Subject msg) 40) as (subject & Hsubject & _); [lia|].
  exists ((from, subject) :: cells).
  cbn [inbox.rows]. unfold inbox.rowCells. now rewrite Hfrom, Hsubject, Hrows.
Qed.

Lemma ListMessages_returns (r : Reader) (w : world) (limit : Z) (unreadOnly : bool) :
  exists v : error + list Message, result (ListMessages r w limit unreadOnly) = Returns v.
Proof.
  unfold ListMessages, Connect. io_unfold.
  destruct (dial w); io_unfold; [eauto|].
  destruct (login w); io_unfold; [eauto|].
  destruct (select w) as [e|n]; io_unfold; [eauto|].
  destruct (n =? 0)%N; io_unfold; [eauto|].
  destruct (uidSearch w _) as [e|uids]; io_unfold; [eauto|].
  destruct uids as [|u us]; io_unfold; [eauto|].
  destruct (snd (uidFetch w _)); io_unfold; eauto.
Qed.

(** The inbox command never panics and never sends mail: whatever the
    settings, the flags and the server's answers, it returns or exits,
    and hands no message to the SMTP library. *)
Theorem inbox_never_panics (f : inbox.flags) (g : globals) (cfg : Config) (w : world)
    (marshalled : option error) :
  (exists r : cmdResult, result (inbox.run f g cfg w marshalled) = Returns r)
  /\ sentMessages (calls (inbox.run f g cfg w marshalled)) = [].
Proof.
  unfold inbox.run. destruct (ValidateIMAP cfg); [split; [eauto | reflexivity]|].
  rewrite calls_bind, result_bind.
  destruct (ListMessages_returns (NewReader (withMailbox (inbox.mailbox f) (IMAP cfg))) w
              (inbox.limit f) (inbox.unreadOnly f)) as [v ->].
  rewrite sentMessages_app, ListMessages_sends_nothing. simpl app.
  destruct v as [err|messages]; [split; [eauto | reflexivity]|].
  destruct (jsonOutput g); [split; [eauto | reflexivity]|].
  destruct (length messages =? 0)%nat; [split; [eauto | reflexivity]|].
  destruct (rows_bounded messages) as [cells Hcells].
  rewrite calls_bind, result_bind. unfold local, result, calls. simpl.
  rewrite Hcells. split; [eauto | reflexivity].
Qed.

End TableCells.

(** ** Settings from the environment *)

Section Settings.
Import cli.

Lemma isEmpty_getEnv (env : environment) (key : string) :
  isEmpty (getEnv env key "") = isEmpty (env key).
Proof. unfold getEnv. destruct (env key); reflexivity. Qed.

Lemma isEmpty_false (s : string) : isEmpty s = false <-> s <> "".
Proof. destruct s; simpl; split; congruence. Qed.

Lemma ValidateIMAP_Load (env : environment) :
  ValidateIMAP (Load env) = None
  <-> env "GHOSTMAIL_IMAP_HOST" <> "" /\ env "GHOSTMAIL_IMAP_USERNAME" <> ""
      /\ env "GHOSTMAIL_IMAP_PASSWORD" <> "".
Proof.
  unfold ValidateIMAP, Load. cbn [IMAP imapHost imapUsername imapPassword].
  rewrite !isEmpty_getEnv, <- !isEmpty_false.
  destruct (isEmpty (env "GHOSTMAIL_IMAP_HOST")),
    (isEmpty (env "GHOSTMAIL_IMAP_USERNAME")),
    (isEmpty (env "GHOSTMAIL_IMAP_PASSWORD")); split;
    first [discriminate | intros (? & ? & ?); discriminate | tauto].
Qed.

Lemma ValidateSMTP_Load (env : environment) :
  ValidateSMTP (Load env) = None
  <-> env "GHOSTMAIL_SMTP_HOST" <> "" /\ env "GHOSTMAIL_SMTP_USERNAME" <> ""
      /\ env "GHOSTMAIL_SMTP_PASSWORD" <> "".
Proof.
  unfold ValidateSMTP, Load. cbn [SMTP smtpHost smtpUsername smtpPassword].
  rewrite !isEmpty_getEnv, <- !isEmpty_false.
  destruct (isEmpty (env "GHOSTMAIL_SMTP_HOST")),
    (isEmpty (env "GHOSTMAIL_SMTP_USERNAME")),
    (isEmpty (env "GHOSTMAIL_SMTP_PASSWORD")); split;
    first [discriminate | intros (? & ? & ?); discriminate | tauto].
Qed.

(** The configuration loaded from the environment passes the SMTP
    validation exactly when the host, the user name and the password of
    the SMTP server are set to non-empty values, and the IMAP validation
    exactly when those of the IMAP server are; ports, TLS switches, the
    sender address and the mailbox never make it fail. *)
Theorem Load_valid_iff (env : environment) :
  (ValidateSMTP (Load env) = None
   <-> env "GHOSTMAIL_SMTP_HOST" <> "" /\ env "GHOSTMAIL_SMTP_USERNAME" <> ""
       /\ env "GHOSTMAIL_SMTP_PASSWORD" <> "")
  /\ (ValidateIMAP (Load env) = None
      <-> env "GHOSTMAIL_IMAP_HOST" <> "" /\ env "GHOSTMAIL_IMAP_USERNAME" <> ""
          /\ env "GHOSTMAIL_IMAP_PASSWORD" <> "").
Proof. split; [apply ValidateSMTP_Load | apply ValidateIMAP_Load]. Qed.

Lemma lacksSetting_invalid (env : environment) (host username password : string)
    (validate : option error) :
  (validate = None <-> env host <> "" /\ env username <> "" /\ env password <> "") ->
  lacksSetting env host username password ->
  exists err : error, validate = Some err.
Proof.
  intros Hiff Hlacks. destruct validate as [err|]; [eauto|].
  destruct (proj1 Hiff eq_refl) as (H1 & H2 & H3).
  destruct Hlacks as [H|[H|H]]; contradiction.
Qed.

(** A command whose server settings are incomplete in the environment
    ends with an error before it touches anything: without the IMAP
    host, user name or password the inbox and the read command make no
    library call, and without those of the SMTP server the send command
    makes none. *)
Theorem commands_need_settings (env : environment) (g : globals) (w : world)
    (marshalled : option error) :
  (lacksSetting env "GHOSTMAIL_IMAP_HOST" "GHOSTMAIL_IMAP_USERNAME"
     "GHOSTMAIL_IMAP_PASSWORD" ->
   (forall f : inbox.flags,
      calls (inbox.run f g (Load env) w marshalled) = []
      /\ exists err, result (inbox.run f g (Load env) w marshalled)
                     = Returns (handleError g err))
   /\ (forall f : read.flags,
         calls (read.run f g (Load env) w marshalled) = []
         /\ exists err, result (read.run f g (Load env) w marshalled)
                        = Returns (handleError g err)))
  /\ (lacksSetting env "GHOSTMAIL_SMTP_HOST" "GHOSTMAIL_SMTP_USERNAME"
        "GHOSTMAIL_SMTP_PASSWORD" ->
      forall f : send.flags,
        calls (send.run f g (Load env) w) = []
        /\ exists err, result (send.run f g (Load env) w) = Returns (handleError g err)).
Proof.
  split.
  - intros Hlacks.
    destruct (lacksSetting_invalid env _ _ _ _ (ValidateIMAP_Load env) Hlacks) as [err Herr].
    split; intros f.
    + unfold inbox.run. rewrite Herr. split; [reflexivity | eauto].
    + unfold read.run. destruct (read.uid f =? 0)%N; [split; [reflexivity | eauto]|].
      rewrite Herr. split; [reflexivity | eauto].
  - intros Hlacks f.
    destruct (lacksSetting_invalid env _ _ _ _ (ValidateSMTP_Load env) Hlacks) as [err Herr].
    unfold send.run. rewrite Herr. split; [reflexivity | eauto].
Qed.

Lemma commands_need_settings_witness :
  (lacksSetting (fun _ => "") "GHOSTMAIL_IMAP_HOST" "GHOSTMAIL_IMAP_USERNAME"
     "GHOSTMAIL_IMAP_PASSWORD"
   /\ calls (read.run (read.mkFlags 7 "" false) samples.plain (Load (fun _ => ""))
               samples.withFiles None) = [])
  /\ lacksSetting samples.imapOnly "GHOSTMAIL_SMTP_HOST" "GHOSTMAIL_SMTP_USERNAME"
    "GHOSTMAIL_SMTP_PASSWORD"
  /\ calls (send.run samples.greeting samples.plain (Load samples.imapOnly)
              samples.withFiles) = []
  /\ exists err,
       result (send.run samples.greeting samples.plain (Load samples.imapOnly)
                 samples.withFiles)
       = Returns (handleError samples.plain err).
Proof.
  assert (H : lacksSetting samples.imapOnly "GHOSTMAIL_SMTP_HOST" "GHOSTMAIL_SMTP_USERNAME"
                "GHOSTMAIL_SMTP_PASSWORD") by (left; reflexivity).
  assert (H' : lacksSetting (fun _ => "") "GHOSTMAIL_IMAP_HOST" "GHOSTMAIL_IMAP_USERNAME"
                 "GHOSTMAIL_IMAP_PASSWORD") by (left; reflexivity).
  split.
  { split; [exact H'|].
    exact (proj1 (proj2 (proj1 (commands_need_settings (fun _ => "") samples.plain
                                  samples.withFiles None) H')
                    (read.mkFlags 7 "" false))). }
  split; [exact H|].
  exact (proj2 (commands_need_settings samples.imapOnly samples.plain samples.withFiles None)
           H samples.greeting).
Defined.

Ltac pick_select H :=
  repeat (apply elem_of_cons in H as [H|H]; [try discriminate H|]);
  try (now inversion H); try (injection H as -> ->; split; reflexivity).

Lemma ListMessages_selects (r : Reader) (w : world) (limit : Z) (unreadOnly : bool)
    (mb : string) (ro : bool) :
  Select mb ro ∈ calls (ListMessages r w limit unreadOnly) ->
  mb = Mailbox (rconfig r) /\ ro = false.
Proof.
  unfold ListMessages, Connect. io_unfold.
  destruct (dial w); io_unfold; [intros H; pick_select H|].
  destruct (login w); io_unfold; [intros H; pick_select H|].
  destruct (select w) as [e|n]; io_unfold; [intros H; pick_select H|].
  destruct (n =? 0)%N; io_unfold; [intros H; pick_select H|].
  destruct (uidSearch w _) as [e|uids]; io_unfold; [intros H; pick_select H|].
  destruct uids as [|u us]; io_unfold; [intros H; pick_select H|].
  destruct (snd (uidFetch w _)); io_unfold; intros H; pick_select H.
Qed.

Lemma ReadMessage_selects (r : Reader) (w : world) (uid : N) (mb : string) (ro : bool) :
  Select mb ro ∈ calls (ReadMessage r w uid) ->
  mb = Mailbox (rconfig r) /\ ro = false.
Proof.
  unfold ReadMessage, Connect. io_unfold.
  destruct (dial w); io_unfold; [intros H; pick_select H|].
  destruct (login w); io_unfold; [intros H; pick_select H|].
  destruct (select w) as [e|n]; io_unfold; [intros H; pick_select H|].
  destruct (readLoop _ None) as [found|msg|]; io_unfold;
    [|intros H; pick_select H|intros H; pick_select H].
  destruct (snd (uidFetch w _)); io_unfold; [intros H; pick_select H|].
  destruct found; io_unfold; intros H; pick_select H.
Qed.

Lemma withMailbox_Load (flag : string) (env : environment) :
  Mailbox (withMailbox flag (IMAP (Load env))) = chosenMailbox flag env
  /\ chosenMailbox flag env <> "".
Proof.
  unfold withMailbox, chosenMailbox, Load, getEnv. cbn [IMAP Mailbox].
  destruct flag as [|c flag]; simpl; [|split; [reflexivity | discriminate]].
  destruct (env "GHOSTMAIL_IMAP_MAILBOX"); simpl; split;
    first [reflexivity | discriminate].
Qed.

(** With the settings of the environment, the inbox and the read
    command open one mailbox only: the one named by [--mailbox] when the
    flag is given, else the one of the environment when set, else
    ["INBOX"].  Its name is never empty, and it is opened for reading and
    writing. *)
Theorem commands_select_mailbox (env : environment) (g : globals) (w : world)
    (marshalled : option error) (mb : string) (ro : bool) :
  (forall f : inbox.flags,
     Select mb ro ∈ calls (inbox.run f g (Load env) w marshalled) ->
     mb = chosenMailbox (inbox.mailbox f) env /\ mb <> "" /\ ro = false)
  /\ (forall f : read.flags,
        Select mb ro ∈ calls (read.run f g (Load env) w marshalled) ->
        mb = chosenMailbox (read.mailbox f) env /\ mb <> "" /\ ro = false).
Proof.
  split; intros f.
  - destruct (withMailbox_Load (inbox.mailbox f) env) as [Hmb Hne].
    unfold inbox.run. destruct (ValidateIMAP (Load env)); [intros H; inversion H|].
    rewrite calls_bind.
    assert (Hlist : Select mb ro ∈ calls (ListMessages
                      (NewReader (withMailbox (inbox.mailbox f) (IMAP (Load env)))) w
                      (inbox.limit f) (inbox.unreadOnly f)) ->
                    mb = chosenMailbox (inbox.mailbox f) env /\ mb <> "" /\ ro = false).
    { intros H. apply ListMessages_selects in H as [-> ->]. cbn [rconfig].
      rewrite Hmb. now repeat split. }
    destruct (result (ListMessages _ w _ _)) as [[err|messages]|msg|];
      [| |exact Hlist|exact Hlist];
      intros H; (apply elem_of_app in H as [H|H]; [now apply Hlist|]);
      [inversion H|].
    destruct (jsonOutput g); [inversion H|].
    destruct (length messages =? 0)%nat; [inversion H|].
    rewrite calls_bind in H. unfold local, result, calls in H. simpl in H.
    destruct (inbox.rows messages); inversion H.
  - destruct (withMailbox_Load (read.mailbox f) env) as [Hmb Hne].
    unfold read.run. destruct (read.uid f =? 0)%N; [intros H; inversion H|].
    destruct (ValidateIMAP (Load env)); [intros H; inversion H|].
    rewrite calls_bind.
    assert (Hread : Select mb ro ∈ calls (ReadMessage
                      (NewReader (withMailbox (read.mailbox f) (IMAP (Load env)))) w
                      (read.uid f)) ->
                    mb = chosenMailbox (read.mailbox f) env /\ mb <> "" /\ ro = false).
    { intros H. apply ReadMessage_selects in H as [-> ->]. cbn [rconfig].
      rewrite Hmb. now repeat split. }
    destruct (result (ReadMessage _ w _)) as [[err|m]|msg|];
      [| |exact Hread|exact Hread];
      intros H; (apply elem_of_app in H as [H|H]; [now apply Hread|]);
      [inversion H|].
    destruct (jsonOutput g); inversion H.
Qed.

Lemma commands_select_mailbox_witness :
  Select "INBOX" false
    ∈ calls (inbox.run (inbox.mkFlags 20 false "") samples.plain (Load samples.imapOnly)
               (samples.serving [samples.lunch]) None)
  /\ "INBOX" = chosenMailbox "" samples.imapOnly /\ "INBOX" <> "" /\ false = false.
Proof.
  assert (H : Select "INBOX" false
                ∈ calls (inbox.run (inbox.mkFlags 20 false "") samples.plain
                           (Load samples.imapOnly) (samples.serving [samples.lunch]) None))
    by (vm_compute; do 2 right; left).
  split; [exact H|].
  exact (proj1 (commands_select_mailbox samples.imapOnly samples.plain
                  (samples.serving [samples.lunch]) None "INBOX" false)
           (inbox.mkFlags 20 false "") H).
Defined.

End Settings.

(** ** The send command's message and the masked password *)

Section SendCommand.
Import cli cli.send.

Lemma send_options_applied (f : flags) (html : string) :
  applyOptions
    (let opts := [WithCC (cc f); WithBCC (bcc f); WithAttachments (attachments f)] in
     let opts := if negb (isEmpty html) then opts ++ [WithHTMLBody html] else opts in
     if negb (isEmpty (inReplyTo f)) then opts ++ [WithInReplyTo (inReplyTo f)] else opts)
  = mkSendOptions (cc f) (bcc f) html (attachments f) ∅ (inReplyTo f) [].
Proof. unfold applyOptions. destruct html, (inReplyTo f); reflexivity. Qed.

Lemma readOptional_result (w : world) (path current : string) :
  result (readOptional w path current)
  = Returns (if isEmpty path then inr current else readFile w path).
Proof. unfold readOptional. destruct (isEmpty path); reflexivity. Qed.

Lemma fieldOf_values (m : gomailMessage) (field : string) (values : list string) :
  header m !! field = fieldOf values -> headerValues m field = values.
Proof. unfold headerValues. intros ->. destruct values; reflexivity. Qed.

(** What the send command hands to the SMTP library is one message at
    most, made from its flags alone: the recipients, the copies and the
    blind copies as given, the subject, the sender's address, the text
    (of the body file when one is named) with the HTML of the HTML file
    before it when there is one, and the attachments in their order, at
    most five.  [--in-reply-to] sets the In-Reply-To field; the References
    field is never set. *)
Theorem send_message_content (f : flags) (g : globals) (cfg : Config) (w : world)
    (m : gomailMessage) :
  m ∈ sentMessages (calls (run f g cfg w)) ->
  exists text html : string,
    sendText f w = inr text /\ sendHtml f w = inr html
    /\ sentMessages (calls (run f g cfg w)) = [m]
    /\ headerValues m "From" = [senderAddress (SMTP cfg)]
    /\ headerValues m "To" = to f /\ to f <> []
    /\ headerValues m "Cc" = cc f
    /\ headerValues m "Bcc" = bcc f
    /\ headerValues m "Subject" = [subject f] /\ subject f <> ""
    /\ headerValues m "In-Reply-To"
       = (if isEmpty (inReplyTo f) then [] else [inReplyTo f])
    /\ headerValues m "References" = []
    /\ bodyParts m = bodyPartsOf text html /\ (text <> "" \/ html <> "")
    /\ attached m = attachments f /\ Z.of_nat (length (attachments f)) <= 5.
Proof.
  unfold run, sendText, sendHtml.
  destruct (ValidateSMTP cfg); [intros H; inversion H|].
  destruct (readOptional_spec w (bodyFile f) (body f)) as [Hs1 _].
  rewrite calls_bind, readOptional_result, sentMessages_app, Hs1. simpl app.
  destruct (if isEmpty (bodyFile f) then inr (body f) else readFile w (bodyFile f))
    as [err|text]; [intros H; inversion H|].
  destruct (readOptional_spec w (htmlFile f) "") as [Hs2 _].
  rewrite calls_bind, readOptional_result, sentMessages_app, Hs2. simpl app.
  destruct (if isEmpty (htmlFile f) then inr "" else readFile w (htmlFile f))
    as [err|html]; [intros H; inversion H|].
  destruct (length (to f) =? 0)%nat eqn:Hto; [intros H; inversion H|].
  destruct (isEmpty (subject f)) eqn:Hsubject; [intros H; inversion H|].
  destruct (isEmpty text && isEmpty html) eqn:Hbody; [intros H; inversion H|].
  destruct (Z.of_nat (length (attachments f)) >? maxAttachments) eqn:Hmany;
    [intros H; inversion H|].
  destruct (checkAttachments_spec w (attachments f)) as (Hs3 & bad & Hbad & _).
  rewrite calls_bind, Hbad, sentMessages_app, Hs3. simpl app.
  destruct bad as [err|]; [intros H; inversion H|].
  unfold Send. rewrite Hto, send_options_applied.
  set (o := mkSendOptions (cc f) (bcc f) html (attachments f) ∅ (inReplyTo f) []).
  set (sent := buildMessage (NewSender (SMTP cfg)) (to f) (subject f) text o).
  assert (Hcalls : forall k : option error -> io cmdResult,
            (forall e, calls (k e) = []) ->
            sentMessages
              (calls ((does (DialAndSend (newDialer (NewSender (SMTP cfg))) sent)
                         (dialAndSend w sent)
                       ≫= (fun err => match err with
                                       | Some err =>
                                           mret (Some (ErrorfW "failed to send email: %w" []
                                                         err))
                                       | None => mret None
                                       end)) ≫= k)) = [sent]).
  { intros k Hk. io_unfold. destruct (dialAndSend w sent); io_unfold;
      unfold calls in Hk; rewrite Hk; reflexivity. }
  rewrite Hcalls by (intros [e|]; reflexivity).
  intros H. apply list_elem_of_singleton in H as ->.
  destruct (buildMessage_fields (NewSender (SMTP cfg)) (to f) (subject f) text o eq_refl)
    as (H1 & H2 & H3 & H4 & H5 & H6 & H7).
  destruct (buildMessage_threading (NewSender (SMTP cfg)) (to f) (subject f) text o eq_refl)
    as (H8 & H9).
  fold sent in H1, H2, H3, H4, H5, H6, H7, H8, H9. cbn [cc bcc htmlBody email.attachments
    email.cc email.bcc email.htmlBody email.inReplyTo email.references o] in *.
  exists text, html. split; [reflexivity|]. split; [reflexivity|]. split; [reflexivity|].
  unfold headerValues. rewrite H1, H2, H3, H8, H9.
  split; [reflexivity|]. split; [reflexivity|].
  split; [destruct (to f); [discriminate Hto | discriminate]|].
  split; [now apply fieldOf_values|]. split; [now apply fieldOf_values|].
  split; [reflexivity|]. split; [now apply isEmpty_false|].
  split; [destruct (isEmpty (inReplyTo f)); reflexivity|].
  split; [reflexivity|]. split; [exact H6|].
  split; [destruct text; [right; destruct html; [discriminate Hbody | discriminate]
                         | left; discriminate]|].
  split; [exact H7|].
  rewrite Z.gtb_ltb in Hmany. apply Z.ltb_ge in Hmany. exact Hmany.
Qed.

Lemma send_message_content_witness :
  samples.greetingMessage ∈ sentMessages (calls samples.sendGreeting)
  /\ exists text html : string,
       sendText samples.greeting samples.withFiles = inr text
       /\ sendHtml samples.greeting samples.withFiles = inr html
       /\ sentMessages (calls samples.sendGreeting) = [samples.greetingMessage]
       /\ headerValues samples.greetingMessage "From" = [senderAddress (SMTP samples.me)]
       /\ headerValues samples.greetingMessage "To" = ["bob@example.com"]
       /\ ["bob@example.com"] <> []
       /\ headerValues samples.greetingMessage "Cc" = ["carol@example.com"]
       /\ headerValues samples.greetingMessage "Bcc" = []
       /\ headerValues samples.greetingMessage "Subject" = ["Hello"] /\ "Hello" <> ""
       /\ headerValues samples.greetingMessage "In-Reply-To" = []
       /\ headerValues samples.greetingMessage "References" = []
       /\ bodyParts samples.greetingMessage = bodyPartsOf text html
       /\ (text <> "" \/ html <> "")
       /\ attached samples.greetingMessage = ["card.pdf"]
       /\ Z.of_nat (length ["card.pdf"]) <= 5.
Proof.
  assert (H : samples.greetingMessage ∈ sentMessages (calls samples.sendGreeting))
    by (vm_compute; left).
  split; [exact H|].
  exact (send_message_content samples.greeting samples.plain samples.me samples.withFiles
           samples.greetingMessage H).
Defined.

Lemma substring_tail (a b : string) :
  String.substring (String.length a) (String.length b) (a +:+ b) = b.
Proof.
  induction a as [|x a IH]; simpl; [|exact IH].
  induction b as [|y b IHb]; simpl; [reflexivity | now rewrite IHb].
Qed.

Lemma substring_head (a b : string) :
  String.substring 0 (String.length a) (a +:+ b) = a.
Proof.
  induction a as [|x a IH]; simpl; [destruct b; reflexivity | now rewrite IH].
Qed.

(** Of a password of five bytes or more the mask shows the first two
    and the last two bytes and nothing else: whatever stands between
    them, and however long it is, is four stars. *)
Theorem maskPassword_hides (a mid b : string) :
  len a = 2 -> len b = 2 -> mid <> "" ->
  maskPassword (a +:+ mid +:+ b) = a +:+ "****" +:+ b.
Proof.
  intros Ha Hb Hmid. unfold maskPassword.
  assert (Hlen : len (a +:+ mid +:+ b) = 4 + len mid) by (rewrite !len_app; lia).
  assert (Hm : 0 < len mid)
    by (apply isEmpty_false_len; destruct mid; [contradiction | reflexivity]).
  assert (isEmpty (a +:+ mid +:+ b) = false) as ->.
  { destruct (a +:+ mid +:+ b) eqn:E; [|reflexivity]. unfold len in Hlen. simpl in Hlen. lia. }
  assert ((len (a +:+ mid +:+ b) <=? 4) = false) as -> by (apply Z.leb_gt; lia).
  unfold slice. rewrite Hlen.
  replace (Z.to_nat (2 - 0)) with (String.length a) by (unfold len in Ha; lia).
  replace (Z.to_nat (4 + len mid - 2)) with (String.length (a +:+ mid))
    by (rewrite string_length_app; unfold len in *; lia).
  replace (Z.to_nat (4 + len mid - (4 + len mid - 2))) with (String.length b)
    by (unfold len in *; lia).
  change (Z.to_nat 0) with 0%nat.
  rewrite substring_head, <- (string_app_assoc a mid b), substring_tail. reflexivity.
Qed.

Lemma maskPassword_hides_witness :
  len "co" = 2 /\ len "se" = 2 /\ "rrect-hor" <> ""
  /\ maskPassword ("co" +:+ "rrect-hor" +:+ "se") = "co" +:+ "****" +:+ "se".
Proof.
  assert (Ha : len "co" = 2) by reflexivity.
  assert (Hb : len "se" = 2) by reflexivity.
  assert (Hmid : "rrect-hor" <> "") by discriminate.
  split; [exact Ha|]. split; [exact Hb|]. split; [exact Hmid|].
  exact (maskPassword_hides "co" "rrect-hor" "se" Ha Hb Hmid).
Defined.

End SendCommand.
